(** * compare_mq_ops: trace parsing and first-divergence comparison

    A shallow embedding of [compare_mq_ops.py].  The script reads the
    output of a test run, extracts the [[MQE #n BEFORE|AFTER]] (encoder)
    and [[MQC #n BEFORE|AFTER]] (decoder) trace lines with two regular
    expressions, pairs consecutive lines of each side by position and
    compares the [newState=.. newMPS=..] fields found in the AFTER lines,
    stopping at the first operation where they differ.

    Modelling decisions.
    - Text is a list of characters with code points below 256
      ([list ascii]).  On that range Python's [\d] is exactly ['0'..'9']
      and [str.strip] removes exactly the code points 9-13, 28-32, 133
      and 160.  Beyond it [\d] and [int] also take the decimal digits of
      other scripts; what is said below about integer values therefore
      names the ASCII digits where it depends on them
      ([ascii_canonical]).
    - The [re] module is embedded as a small backtracking matcher over
      the constructs the two patterns use; alternatives are tried in
      Python's priority order and the first success is the match.
    - [int(...)] is the unbounded decimal conversion (the interpreter's
      configurable limit on the number of digits is not modelled).
    - The file handed to [parse_mq_operations] is the sequence of lines
      that iterating over it yields; [read_lines] gives that sequence for
      a file of a given content, with the line ends translated as a file
      opened for reading in text mode translates them.
    - [print] appends one typed line to the output log.
    - [main] starts from what the test run wrote to its standard output
      and standard error; running the test and the path of the file the
      two are written to are outside the model. *)

From Stdlib Require Import ZArith Ascii String List Lia.
From stdpp Require Import base list strings.
Import ListNotations.

Local Open Scope nat_scope.

Abbreviation str := (list ascii).

(** String literals of the source, as character lists. *)
Definition txt (lit : string) : str := list_ascii_of_string lit.

(** ** Character classes *)

Module Chars.

Definition code (c : ascii) : nat := nat_of_ascii c.

(** [\d] on code points below 256. *)
Definition is_digit (c : ascii) : bool :=
  (48 <=? code c) && (code c <=? 57).

Definition newline : ascii := ascii_of_nat 10.

(** [.] without DOTALL: anything but a line feed. *)
Definition is_dot (c : ascii) : bool :=
  negb (code c =? 10).

(** [str.isspace] on code points below 256. *)
Definition is_space (c : ascii) : bool :=
  let n := code c in
  ((9 <=? n) && (n <=? 13)) || ((28 <=? n) && (n <=? 32))
  || (n =? 133) || (n =? 160).

End Chars.

(** ** The fragment of [re] used by the script *)

Module Re.

Inductive cclass := Digit | Dot.

Definition in_class (k : cclass) : ascii -> bool :=
  match k with
  | Digit => Chars.is_digit
  | Dot => Chars.is_dot
  end.

Inductive regex :=
| Lit (l : str)                 (* literal characters *)
| Plus (k : cclass)             (* greedy [k+] *)
| Alt (r1 r2 : regex)           (* [r1|r2], left first *)
| Seq (r1 r2 : regex)
| Group (n : nat) (r : regex).  (* capturing group number [n] *)

Definition captures := list (nat * str).

(** One way of matching at the start of a text: what was consumed,
    what is left, and the groups closed on the way. *)
Record attempt := Attempt {
  consumed : str;
  rest : str;
  caps : captures
}.

Fixpoint strip_prefix (l t : str) : option str :=
  match l, t with
  | [], _ => Some t
  | a :: l', b :: t' => if bool_decide (a = b) then strip_prefix l' t' else None
  | _ :: _, [] => None
  end.

Definition push (c : ascii) (a : attempt) : attempt :=
  Attempt (c :: consumed a) (rest a) (caps a).

(** Greedy [k*]: longest run first, then shorter ones on backtracking. *)
Fixpoint star (p : ascii -> bool) (t : str) : list attempt :=
  match t with
  | c :: t' =>
      if p c then map (push c) (star p t') ++ [Attempt [] t []]
      else [Attempt [] t []]
  | [] => [Attempt [] [] []]
  end.

(** Greedy [k+]: one character of the class, then [k*]. *)
Definition plus (p : ascii -> bool) (t : str) : list attempt :=
  match t with
  | c :: t' => if p c then map (push c) (star p t') else []
  | [] => []
  end.

Definition then_ (a b : attempt) : attempt :=
  Attempt (consumed a ++ consumed b) (rest b) (caps a ++ caps b).

Definition close (n : nat) (a : attempt) : attempt :=
  Attempt (consumed a) (rest a) (caps a ++ [(n, consumed a)]).

(** All ways of matching [r] at the start of [t], in the order in which
    a backtracking matcher explores them. *)
Fixpoint attempts (r : regex) (t : str) : list attempt :=
  match r with
  | Lit l =>
      match strip_prefix l t with
      | Some t' => [Attempt l t' []]
      | None => []
      end
  | Plus k => plus (in_class k) t
  | Alt r1 r2 => attempts r1 t ++ attempts r2 t
  | Seq r1 r2 =>
      flat_map (fun a => map (then_ a) (attempts r2 (rest a))) (attempts r1 t)
  | Group n r' => map (close n) (attempts r' t)
  end.

(** [re.match]: anchored at the start, first success wins. *)
Definition re_match (r : regex) (t : str) : option attempt :=
  head (attempts r t).

(** [re.search]: leftmost start position at which [re.match] succeeds. *)
Fixpoint re_search (r : regex) (t : str) : option attempt :=
  match re_match r t with
  | Some m => Some m
  | None =>
      match t with
      | [] => None
      | _ :: t' => re_search r t'
      end
  end.

Fixpoint assoc (n : nat) (g : captures) : str :=
  match g with
  | [] => []
  | (k, v) :: g' => if Nat.eqb k n then v else assoc n g'
  end.

(** [m.group(n)] for a group that took part in the match. *)
Definition group (n : nat) (m : attempt) : str := assoc n (caps m).

End Re.

(** ** [str] and [int] helpers *)

Fixpoint lstrip (t : str) : str :=
  match t with
  | c :: t' => if Chars.is_space c then lstrip t' else t
  | [] => []
  end.

Definition rstrip (t : str) : str := rev (lstrip (rev t)).

(** [str.strip()] *)
Definition strip (t : str) : str := rstrip (lstrip t).

Definition digit_value (c : ascii) : Z := Z.of_nat (Chars.code c) - 48.

(** [int(ds)] for a string of decimal digits. *)
Definition int (ds : str) : Z :=
  fold_left (fun acc c => 10 * acc + digit_value c)%Z ds 0%Z.

(** ** [parse_mq_operations] *)

(** The tuple [(op_num, phase, details)]. *)
Record TraceLine := mkTraceLine {
  op_num : Z;
  phase : str;
  details : str
}.

Import Re.

(** [\[MQE #(\d+) (BEFORE|AFTER)\](.+)] and its decoder twin. *)
Definition tag_re (tag : string) : regex :=
  Seq (Lit (txt tag))
 (Seq (Group 1 (Plus Digit))
 (Seq (Lit (txt " "))
 (Seq (Group 2 (Alt (Lit (txt "BEFORE")) (Lit (txt "AFTER"))))
 (Seq (Lit (txt "]"))
      (Group 3 (Plus Dot)))))).

Definition enc_re : regex := tag_re "[MQE #".
Definition dec_re : regex := tag_re "[MQC #".

Definition record_of (m : attempt) : TraceLine :=
  mkTraceLine (int (group 1 m)) (group 2 m) (strip (group 3 m)).

(** The body of [for line in f]. *)
Definition parse_line (ops : list TraceLine * list TraceLine) (line : str)
  : list TraceLine * list TraceLine :=
  let '(encoder_ops, decoder_ops) := ops in
  let encoder_ops :=
    match re_match enc_re line with
    | Some enc_match => encoder_ops ++ [record_of enc_match]
    | None => encoder_ops
    end in
  let decoder_ops :=
    match re_match dec_re line with
    | Some dec_match => decoder_ops ++ [record_of dec_match]
    | None => decoder_ops
    end in
  (encoder_ops, decoder_ops).

Definition parse_mq_operations (lines : list str)
  : list TraceLine * list TraceLine :=
  fold_left parse_line lines ([], []).

(** ** The comparison loop of [main] *)

(** One printed line. *)
Inductive printed :=
| EncoderOperations (n : nat)        (* Encoder operations: n *)
| DecoderOperations (n : nat)        (* Decoder operations: n *)
| Blank                              (* print() *)
| OperationHeader (n : nat)          (* === Operation #n === *)
| EncBefore (t : str)                (* ENC BEFORE: t *)
| EncAfter (t : str)                 (* ENC AFTER:  t *)
| DecBefore (t : str)                (* DEC BEFORE: t *)
| DecAfter (t : str)                 (* DEC AFTER:  t *)
| StateMismatch (enc dec : str * str)  (* STATE MISMATCH! Enc:.. Dec:.. *)
| StatesMatch (st : str * str).      (* States match: .. *)

Inductive exn := IndexError.

(** Computations that print and may raise: the log so far goes in, the
    extended log and either an exception or a value come out. *)
Definition io (A : Type) : Type := list printed -> list printed * (exn + A).

Definition ret {A} (a : A) : io A := fun log => (log, inr a).

Definition bind {A B} (c : io A) (k : A -> io B) : io B :=
  fun log =>
    match c log with
    | (log', inl e) => (log', inl e)
    | (log', inr a) => k a log'
    end.

Definition raise {A} (e : exn) : io A := fun log => (log, inl e).

Definition print (l : printed) : io unit := fun log => (log ++ [l], inr tt).

Declare Scope io_scope.
Delimit Scope io_scope with io.
Notation "x <~ c1 ; c2" := (bind c1 (fun x => c2))
  (at level 20, c1 at level 100, c2 at level 200, only parsing) : io_scope.
Notation "c1 >> c2" := (bind c1 (fun _ => c2))
  (at level 100, c2 at level 200, right associativity, only parsing) : io_scope.

(** [ops[i]] for a non-negative [i]. *)
Definition index (ops : list TraceLine) (i : nat) : io TraceLine :=
  match ops !! i with
  | Some l => ret l
  | None => raise IndexError
  end.

(** [newState=(\d+) newMPS=(\d+)] *)
Definition state_re : regex :=
  Seq (Lit (txt "newState="))
 (Seq (Group 1 (Plus Digit))
 (Seq (Lit (txt " newMPS="))
      (Group 2 (Plus Digit)))).

(** How an iteration of the loop hands control back. *)
Inductive flow := Next | Break.

(** How the loop ended: by running out of operations or by [break]. *)
Inductive terminal := Exhausted | Diverged.

Local Open Scope io_scope.

(** The body of [for i in range(max_ops)]. *)
Definition operation (encoder_ops decoder_ops : list TraceLine) (i : nat)
  : io flow :=
  enc_before <~ index encoder_ops (i * 2);
  enc_after <~ index encoder_ops (i * 2 + 1);
  dec_before <~ index decoder_ops (i * 2);
  dec_after <~ index decoder_ops (i * 2 + 1);
  print (OperationHeader (i + 1)) >>
  print (EncBefore (details enc_before)) >>
  print (EncAfter (details enc_after)) >>
  print (DecBefore (details dec_before)) >>
  print (DecAfter (details dec_after)) >>
  let enc_state_match := re_search state_re (details enc_after) in
  let dec_state_match := re_search state_re (details dec_after) in
  match enc_state_match, dec_state_match with
  | Some enc_state_match, Some dec_state_match =>
      let enc_state := (group 1 enc_state_match, group 2 enc_state_match) in
      let dec_state := (group 1 dec_state_match, group 2 dec_state_match) in
      if bool_decide (enc_state <> dec_state) then
        print (StateMismatch enc_state dec_state) >>
        print Blank >>
        ret Break
      else
        print (StatesMatch enc_state) >>
        print Blank >>
        ret Next
  | _, _ =>
      print Blank >>
      ret Next
  end.

(** A [for] loop over the given indices whose body may [break]. *)
Fixpoint for_range (body : nat -> io flow) (indices : list nat) : io terminal :=
  match indices with
  | [] => ret Exhausted
  | i :: later =>
      f <~ body i;
      match f with
      | Break => ret Diverged
      | Next => for_range body later
      end
  end.

(** [main] from the point where both streams are parsed. *)
Definition compare (encoder_ops decoder_ops : list TraceLine) : io terminal :=
  print (EncoderOperations (length encoder_ops / 2)) >>
  print (DecoderOperations (length decoder_ops / 2)) >>
  print Blank >>
  let max_ops :=
    Nat.min 50 (Nat.min (length encoder_ops / 2) (length decoder_ops / 2)) in
  for_range (operation encoder_ops decoder_ops) (seq 0 max_ops).

Definition run {A} (c : io A) : list printed * (exn + A) := c [].

Local Close Scope io_scope.

(** ** Vocabulary for the statements *)

(** The state snapshot of an AFTER payload: the two captured digit
    strings, when the sub-pattern is found. *)
Definition snapshot (payload : str) : option (str * str) :=
  match re_search state_re payload with
  | Some m => Some (group 1 m, group 2 m)
  | None => None
  end.

(** The comparison window [max_ops]. *)
Definition window (enc dec : list TraceLine) : nat :=
  Nat.min 50 (Nat.min (length enc / 2) (length dec / 2)).

Definition payload_at (ops : list TraceLine) (k : nat) : str :=
  from_option details [] (ops !! k).

(** Snapshot of the AFTER line of operation [i] (counted from 0). *)
Definition snapshot_at (ops : list TraceLine) (i : nat) : option (str * str) :=
  snapshot (payload_at ops (i * 2 + 1)).

(** The four payload lines of operation [i] under their header. *)
Definition op_lines (enc dec : list TraceLine) (i : nat) : list printed :=
  [ OperationHeader (i + 1);
    EncBefore (payload_at enc (i * 2));
    EncAfter (payload_at enc (i * 2 + 1));
    DecBefore (payload_at dec (i * 2));
    DecAfter (payload_at dec (i * 2 + 1)) ].

(** Both snapshots of operation [i] are there and differ. *)
Definition mismatch_at (enc dec : list TraceLine) (i : nat) : bool :=
  match snapshot_at enc i, snapshot_at dec i with
  | Some a, Some b => bool_decide (a <> b)
  | _, _ => false
  end.

(** The verdict line of operation [i], if it gets one. *)
Definition verdict (enc dec : list TraceLine) (i : nat) : list printed :=
  match snapshot_at enc i, snapshot_at dec i with
  | Some a, Some b =>
      if bool_decide (a <> b) then [StateMismatch a b] else [StatesMatch a]
  | _, _ => []
  end.

(** Everything printed for operation [i]. *)
Definition block (enc dec : list TraceLine) (i : nat) : list printed :=
  op_lines enc dec i ++ verdict enc dec i ++ [Blank].

Definition preamble (enc dec : list TraceLine) : list printed :=
  [ EncoderOperations (length enc / 2);
    DecoderOperations (length dec / 2);
    Blank ].

(** The operation numbers announced in a log, in order. *)
Definition examined (out : list printed) : list nat :=
  omap (fun l => match l with OperationHeader n => Some n | _ => None end) out.

Definition is_verdict (l : printed) : bool :=
  match l with
  | StateMismatch _ _ | StatesMatch _ => true
  | _ => false
  end.

(** The verdict lines of a log, in order. *)
Definition verdicts (out : list printed) : list printed :=
  filter (fun l => is_verdict l = true) out.

(** Two streams that differ at most in the [op_num] fields. *)
Definition same_but_op_num (ops ops' : list TraceLine) : Prop :=
  Forall2 (fun l l' => phase l = phase l' /\ details l = details l') ops ops'.

(** The indices the loop visits among [indices]: up to and including
    the first mismatch. *)
Fixpoint visited (enc dec : list TraceLine) (indices : list nat) : list nat :=
  match indices with
  | [] => []
  | i :: later =>
      if mismatch_at enc dec i then [i] else i :: visited enc dec later
  end.

(** How the loop over [indices] ends. *)
Definition outcome (enc dec : list TraceLine) (indices : list nat) : terminal :=
  if existsb (mismatch_at enc dec) indices then Diverged else Exhausted.

(** ** Scanning: the patterns read left to right

    The script's patterns leave the matcher no real choice: a run of
    digits is followed by a character that is no digit, the two phase
    tokens start differently, and the last group runs to the end.  The
    scans below read a text once from the left; they are not part of
    the model, and are proved further down to find exactly what
    [re_match] and [re_search] find. *)

(** The longest prefix in a class, and what follows it. *)
Fixpoint span (p : ascii -> bool) (t : str) : str * str :=
  match t with
  | c :: t' =>
      if p c then (c :: fst (span p t'), snd (span p t')) else ([], t)
  | [] => ([], [])
  end.

(** A text that is empty or starts outside the class. *)
Definition stops (p : ascii -> bool) (t : str) : Prop :=
  match t with
  | [] => True
  | c :: _ => p c = false
  end.

(** An attempt that stopped short of the longest run. *)
Definition short (p : ascii -> bool) (a : attempt) : Prop :=
  exists c t, rest a = c :: t /\ p c = true.

(** The longest non-empty run in a class at the start of a text. *)
Definition run_of (p : ascii -> bool) (t : str) : option (str * str) :=
  match span p t with
  | ([], _) => None
  | (ds, t') => Some (ds, t')
  end.

(** [(BEFORE|AFTER)] at the start of a text. *)
Definition scan_phase (t : str) : option (str * str) :=
  match strip_prefix (txt "BEFORE") t with
  | Some t' => Some (txt "BEFORE", t')
  | None =>
      match strip_prefix (txt "AFTER") t with
      | Some t' => Some (txt "AFTER", t')
      | None => None
      end
  end.

(** A left-to-right scan for [tag digits ' ' phase ']' body]: the three
    groups, when the line has that shape. *)
Definition scan_tag (tag : string) (line : str) : option (str * str * str) :=
  t1 ← strip_prefix (txt tag) line;
  '(ds, t2) ← run_of Chars.is_digit t1;
  t3 ← strip_prefix (txt " ") t2;
  '(ph, t4) ← scan_phase t3;
  t5 ← strip_prefix (txt "]") t4;
  '(body, _) ← run_of Chars.is_dot t5;
  Some (ds, ph, body).

Definition groups_of (g : str * str * str) : captures :=
  let '(ds, ph, body) := g in [(1, ds); (2, ph); (3, body)].

(** [newState=digits newMPS=digits] at the start of a text. *)
Definition scan_state (t : str) : option (str * str) :=
  t1 ← strip_prefix (txt "newState=") t;
  '(a, t2) ← run_of Chars.is_digit t1;
  t3 ← strip_prefix (txt " newMPS=") t2;
  '(b, _) ← run_of Chars.is_digit t3;
  Some (a, b).

(** The leftmost place where the scan succeeds. *)
Fixpoint find_state (t : str) : option (str * str) :=
  match scan_state t with
  | Some st => Some st
  | None =>
      match t with
      | [] => None
      | _ :: t' => find_state t'
      end
  end.

(** ** Lines and records *)

(** A tagged line put together from its parts. *)
Definition tagged (tag : string) (ds ph after : str) : str :=
  txt tag ++ ds ++ txt " " ++ ph ++ txt "]" ++ after.

Definition is_phase (ph : str) : Prop :=
  ph = txt "BEFORE" \/ ph = txt "AFTER".

(** The parts a tag pattern can take a line apart into: the digits,
    the phase token, a non-empty remainder of the line without a line
    feed, and whatever follows from a line feed on. *)
Definition well_formed (ds ph body tail : str) : Prop :=
  ds <> [] /\ forallb Chars.is_digit ds = true /\ is_phase ph
  /\ body <> [] /\ forallb Chars.is_dot body = true
  /\ stops Chars.is_dot tail.

(** The record made from the three groups. *)
Definition fields (g : str * str * str) : TraceLine :=
  let '(ds, ph, body) := g in mkTraceLine (int ds) ph (strip body).

(** A decimal numeral written with the ASCII digits [0] to [9] as a
    program prints it: those digits only, at least one, and no zero in
    front unless it is the numeral [0].  The restriction to ASCII digits
    is part of the notion: the script's [\d] also takes the decimal
    digits of other scripts, and two numerals in different digits can
    have the same value without being the same text. *)
Definition ascii_canonical (ds : str) : Prop :=
  forallb Chars.is_digit ds = true
  /\ (ds = txt "0" \/ exists c r, ds = c :: r /\ c <> "0"%char).

(** The record a line adds to the encoder stream, if any. *)
Definition enc_record (line : str) : option TraceLine :=
  option_map record_of (re_match enc_re line).

(** The record a line adds to the decoder stream, if any. *)
Definition dec_record (line : str) : option TraceLine :=
  option_map record_of (re_match dec_re line).

(** ** Sample input *)

(** The BEFORE and AFTER records of one operation. *)
Definition op_pair (n : Z) (before after : string) : list TraceLine :=
  [ mkTraceLine n (txt "BEFORE") (txt before);
    mkTraceLine n (txt "AFTER") (txt after) ].

(** Four operations that all end in state 5, MPS 0. *)
Definition steady : list TraceLine :=
  op_pair 1 "state=4 mps=0" "newState=5 newMPS=0"
  ++ op_pair 2 "state=5 mps=0" "newState=5 newMPS=0"
  ++ op_pair 3 "state=5 mps=0" "newState=5 newMPS=0"
  ++ op_pair 4 "state=5 mps=0" "newState=5 newMPS=0".

(** The same, except that the third operation ends with MPS 1. *)
Definition flipped_third : list TraceLine :=
  op_pair 1 "state=4 mps=0" "newState=5 newMPS=0"
  ++ op_pair 2 "state=5 mps=0" "newState=5 newMPS=0"
  ++ op_pair 3 "state=5 mps=0" "newState=5 newMPS=1"
  ++ op_pair 4 "state=5 mps=0" "newState=5 newMPS=0".

(** The same as [steady], except that the second AFTER line carries no
    state fields. *)
Definition silent_second : list TraceLine :=
  op_pair 1 "state=4 mps=0" "newState=5 newMPS=0"
  ++ op_pair 2 "state=5 mps=0" "renormalised"
  ++ op_pair 3 "state=5 mps=0" "newState=5 newMPS=0"
  ++ op_pair 4 "state=5 mps=0" "newState=5 newMPS=0".

(** [steady] with other operation numbers in the tags. *)
Definition renumbered : list TraceLine :=
  map (fun l => mkTraceLine (op_num l + 100) (phase l) (details l)) steady.

(** One operation whose state is written with a zero in front. *)
Definition padded : list TraceLine :=
  op_pair 1 "state=4 mps=0" "newState=05 newMPS=0".

Definition unpadded : list TraceLine :=
  op_pair 1 "state=4 mps=0" "newState=5 newMPS=0".

(** A hundred operations that all end in state 5, MPS 0. *)
Definition hundred : list TraceLine :=
  flat_map
    (fun k => op_pair (Z.of_nat k) "state=5 mps=0" "newState=5 newMPS=0")
    (seq 1 100).

(** A few lines of test output, trace lines of both sides among them. *)
Definition sample_output : list str :=
  [ txt "=== RUN   TestSimple5x5Debug";
    txt "[MQE #1 BEFORE] state=4 mps=0";
    txt "[MQC #1 BEFORE] state=4 mps=0";
    txt "    t1_test.go:42: pass 0";
    txt "[MQE #1 AFTER] newState=5 newMPS=0";
    txt "[MQC #1 AFTER] newState=5 newMPS=0" ].

(** ** Reading the file and running the whole script *)

Definition carriage_return : ascii := ascii_of_nat 13.

(** What reading a text file hands over: [\r\n] and a lone [\r] both
    arrive as [\n]. *)
Fixpoint universal_newlines (content : str) : str :=
  match content with
  | [] => []
  | c :: rest1 =>
      if bool_decide (c = carriage_return) then
        match rest1 with
        | d :: rest2 =>
            if bool_decide (d = Chars.newline)
            then Chars.newline :: universal_newlines rest2
            else Chars.newline :: universal_newlines rest1
        | [] => [Chars.newline]
        end
      else c :: universal_newlines rest1
  end.

(** Cutting a text after every line feed; a last line without one is a
    line too. *)
Fixpoint split_lines (t : str) : list str :=
  match t with
  | [] => []
  | c :: t' =>
      if bool_decide (c = Chars.newline) then [c] :: split_lines t'
      else
        match split_lines t' with
        | [] => [[c]]
        | l :: ls => (c :: l) :: ls
        end
  end.

(** The lines that [for line in f] yields for a file of this content. *)
Definition read_lines (content : str) : list str :=
  split_lines (universal_newlines content).

(** [parse_mq_operations(filename)] for a file of this content. *)
Definition parse_file (content : str) : list TraceLine * list TraceLine :=
  parse_mq_operations (read_lines content).

(** [main], given what the test run wrote to its two output streams:
    both are written to the file one after the other, the file is
    parsed, and the two streams are compared. *)
Definition main (stdout stderr : str) : io terminal :=
  let '(encoder_ops, decoder_ops) := parse_file (stdout ++ stderr) in
  compare encoder_ops decoder_ops.

(** ** Further vocabulary *)

(** A line that one of the two patterns matches. *)
Definition is_trace_line (line : str) : bool :=
  match re_match enc_re line, re_match dec_re line with
  | None, None => false
  | _, _ => true
  end.

(** A text with no whitespace at either end. *)
Definition edge_clean (t : str) : Prop :=
  (forall c u, t = c :: u -> Chars.is_space c = false)
  /\ (forall c u, t = u ++ [c] -> Chars.is_space c = false).

(** A line in which a line feed, if there is one, is the last character. *)
Definition newline_last (l : str) : Prop :=
  forall u v, l = u ++ Chars.newline :: v -> v = [].

Definition is_mismatch (l : printed) : bool :=
  match l with
  | StateMismatch _ _ => true
  | _ => false
  end.

(** ** The loop, operation by operation *)

Section Loop.

Variables enc dec : list TraceLine.

Lemma pair_in_range (ops : list TraceLine) (i : nat) :
  i < length ops / 2 -> i * 2 + 1 < length ops.
Proof.
  intros H.
  pose proof (Nat.div_mod_eq (length ops) 2) as E.
  pose proof (Nat.mod_upper_bound (length ops) 2). lia.
Qed.

Lemma index_in_range (ops : list TraceLine) (k : nat) (log : list printed) :
  k < length ops ->
  exists l, ops !! k = Some l /\ payload_at ops k = details l
            /\ index ops k log = (log, inr l).
Proof.
  intros H. destruct (lookup_lt_is_Some_2 ops k H) as [l E].
  exists l. unfold payload_at, index. rewrite E. auto.
Qed.

(** An operation whose four lines exist prints its block and breaks
    exactly on a mismatch. *)
Lemma operation_in_range (i : nat) (log : list printed) :
  i * 2 + 1 < length enc -> i * 2 + 1 < length dec ->
  operation enc dec i log
  = (log ++ block enc dec i,
     inr (if mismatch_at enc dec i then Break else Next)).
Proof.
  intros He Hd.
  destruct (index_in_range enc (i * 2) log) as (eb & _ & Peb & Ieb); [lia|].
  destruct (index_in_range enc (i * 2 + 1) log) as (ea & _ & Pea & Iea); [lia|].
  destruct (index_in_range dec (i * 2) log) as (db & _ & Pdb & Idb); [lia|].
  destruct (index_in_range dec (i * 2 + 1) log) as (da & _ & Pda & Ida); [lia|].
  unfold operation, bind. rewrite Ieb, Iea, Idb, Ida.
  unfold block, verdict, mismatch_at, snapshot_at, op_lines, snapshot.
  rewrite Peb, Pea, Pdb, Pda.
  destruct (re_search state_re (details ea)) as [me|];
    destruct (re_search state_re (details da)) as [md|];
    try (destruct (bool_decide _));
    unfold print, ret; simpl; rewrite <- ?app_assoc; reflexivity.
Qed.

Lemma for_range_in_range (n : nat) :
  forall i log,
    (i + n) * 2 <= length enc -> (i + n) * 2 <= length dec ->
    for_range (operation enc dec) (seq i n) log
    = (log ++ concat (map (block enc dec) (visited enc dec (seq i n))),
       inr (outcome enc dec (seq i n))).
Proof.
  induction n as [|n IH]; intros i log He Hd.
  - simpl. unfold ret. rewrite app_nil_r. reflexivity.
  - cbn [seq for_range visited map]. unfold bind at 1.
    rewrite operation_in_range by lia.
    unfold outcome. cbn [existsb].
    destruct (mismatch_at enc dec i) eqn:M.
    + unfold ret. simpl. rewrite app_nil_r. reflexivity.
    + rewrite IH by lia. cbn [map concat orb]. unfold outcome.
      rewrite <- app_assoc. reflexivity.
Qed.

Lemma window_in_range :
  window enc dec * 2 <= length enc /\ window enc dec * 2 <= length dec.
Proof.
  unfold window.
  pose proof (Nat.div_mod_eq (length enc) 2).
  pose proof (Nat.div_mod_eq (length dec) 2).
  lia.
Qed.

(** [compare] in closed form, from any log: no exception, the preamble,
    then the blocks of the visited operations. *)
Lemma compare_from (log : list printed) :
  compare enc dec log
  = (log ++ preamble enc dec
       ++ concat (map (block enc dec) (visited enc dec (seq 0 (window enc dec)))),
     inr (outcome enc dec (seq 0 (window enc dec)))).
Proof.
  destruct window_in_range as [He Hd].
  unfold compare, bind, print.
  fold (window enc dec).
  rewrite for_range_in_range by (simpl; lia).
  unfold preamble. rewrite <- !app_assoc. reflexivity.
Qed.

Lemma compare_run :
  run (compare enc dec)
  = (preamble enc dec
       ++ concat (map (block enc dec) (visited enc dec (seq 0 (window enc dec)))),
     inr (outcome enc dec (seq 0 (window enc dec)))).
Proof. unfold run. rewrite compare_from. reflexivity. Qed.

End Loop.

(** ** Facts about the matcher *)

Section Matcher.

Lemma head_map {A B} (f : A -> B) (l : list A) :
  head (map f l) = option_map f (head l).
Proof. destruct l; reflexivity. Qed.

Lemma strip_prefix_app (l t : str) : strip_prefix l (l ++ t) = Some t.
Proof.
  induction l as [|a l IH]; simpl; [reflexivity|].
  rewrite bool_decide_eq_true_2 by reflexivity. exact IH.
Qed.

Lemma strip_prefix_inv (l t t' : str) :
  strip_prefix l t = Some t' -> t = l ++ t'.
Proof.
  revert t. induction l as [|a l IH]; intros t H; simpl in H.
  - simpl. congruence.
  - destruct t as [|b t]; [discriminate|].
    destruct (bool_decide (a = b)) eqn:E; [|discriminate].
    apply bool_decide_eq_true_1 in E. subst b.
    simpl. f_equal. apply IH. exact H.
Qed.

(** A literal starting with [a] does not match a text starting with
    another character. *)
Lemma strip_prefix_other (a c : ascii) (l t : str) :
  a <> c -> strip_prefix (a :: l) (c :: t) = None.
Proof.
  intros H. simpl. rewrite bool_decide_eq_false_2 by exact H. reflexivity.
Qed.

Lemma span_app (p : ascii -> bool) (t : str) :
  t = fst (span p t) ++ snd (span p t).
Proof.
  induction t as [|c t IH]; simpl; [reflexivity|].
  destruct (p c); simpl; [f_equal; exact IH | reflexivity].
Qed.

Lemma span_all (p : ascii -> bool) (t : str) :
  forallb p (fst (span p t)) = true.
Proof.
  induction t as [|c t IH]; simpl; [reflexivity|].
  destruct (p c) eqn:E; simpl; [rewrite E; exact IH | reflexivity].
Qed.

Lemma span_stops (p : ascii -> bool) (t : str) : stops p (snd (span p t)).
Proof.
  induction t as [|c t IH]; simpl; [exact I|].
  destruct (p c) eqn:E; simpl; [exact IH | exact E].
Qed.

Lemma span_max (p : ascii -> bool) (ds t : str) :
  forallb p ds = true -> stops p t -> span p (ds ++ t) = (ds, t).
Proof.
  intros Hd Ht. induction ds as [|c ds IH]; simpl in *.
  - destruct t as [|c t]; [reflexivity|]. simpl in *. rewrite Ht. reflexivity.
  - apply andb_prop in Hd as [Hc Hd]. rewrite Hc, (IH Hd). reflexivity.
Qed.

Lemma star_longest_first (p : ascii -> bool) (t : str) :
  exists shorter,
    star p t = Attempt (fst (span p t)) (snd (span p t)) [] :: shorter
    /\ Forall (short p) shorter.
Proof.
  induction t as [|c t (shorter & E & F)]; simpl.
  - exists []. split; [reflexivity | constructor].
  - destruct (p c) eqn:Pc.
    + exists (map (push c) shorter ++ [Attempt [] (c :: t) []]). split.
      * rewrite E. reflexivity.
      * apply Forall_app. split.
        -- apply Forall_map. eapply Forall_impl; [exact F|].
           intros a Ha. exact Ha.
        -- constructor; [|constructor]. exists c, t. auto.
    + exists []. split; [reflexivity | constructor].
Qed.

Lemma plus_longest_first (p : ascii -> bool) (t : str) :
  match fst (span p t) with
  | [] => plus p t = []
  | _ :: _ =>
      exists shorter,
        plus p t = Attempt (fst (span p t)) (snd (span p t)) [] :: shorter
        /\ Forall (short p) shorter
  end.
Proof.
  destruct t as [|c t]; simpl; [reflexivity|].
  destruct (p c) eqn:Pc; simpl; [|reflexivity].
  destruct (star_longest_first p t) as (shorter & E & F).
  exists (map (push c) shorter). split.
  - rewrite E. reflexivity.
  - apply Forall_map. eapply Forall_impl; [exact F|]. intros a Ha. exact Ha.
Qed.

Lemma plus_run_of (p : ascii -> bool) (t : str) :
  match run_of p t with
  | None => plus p t = []
  | Some (ds, t') =>
      exists shorter,
        plus p t = Attempt ds t' [] :: shorter /\ Forall (short p) shorter
  end.
Proof.
  pose proof (plus_longest_first p t) as H. unfold run_of.
  destruct (span p t) as [[|d ds] t']; exact H.
Qed.

Lemma run_of_inv (p : ascii -> bool) (t ds t' : str) :
  run_of p t = Some (ds, t') ->
  t = ds ++ t' /\ ds <> [] /\ forallb p ds = true /\ stops p t'.
Proof.
  unfold run_of. intros H.
  pose proof (span_app p t) as A. pose proof (span_all p t) as B.
  pose proof (span_stops p t) as C.
  destruct (span p t) as [[|d r] u]; [discriminate|].
  injection H as <- <-. simpl in *. repeat split; auto; discriminate.
Qed.

Lemma run_of_max (p : ascii -> bool) (ds t : str) :
  ds <> [] -> forallb p ds = true -> stops p t ->
  run_of p (ds ++ t) = Some (ds, t).
Proof.
  intros N A S. unfold run_of. rewrite (span_max p ds t A S).
  destruct ds; [contradiction | reflexivity].
Qed.

Lemma flat_map_nothing {A B} (f : A -> list B) (l : list A) :
  Forall (fun a => f a = []) l -> flat_map f l = [].
Proof.
  induction 1 as [|a l E _ IH]; simpl; [reflexivity|].
  rewrite E, IH. reflexivity.
Qed.

Lemma attempts_seq_lit (l : str) (r : regex) (t : str) :
  attempts (Seq (Lit l) r) t
  = match strip_prefix l t with
    | Some t' => map (then_ (Attempt l t' [])) (attempts r t')
    | None => []
    end.
Proof.
  cbn [attempts]. destruct (strip_prefix l t); simpl; [|reflexivity].
  apply app_nil_r.
Qed.

(** [(k+)] followed by a literal that cannot start inside the class:
    only the longest run can be continued. *)
Lemma attempts_seq_group_plus (n : nat) (k : cclass) (l : str) (r : regex)
      (t : str) :
  (forall c u, in_class k c = true -> strip_prefix l (c :: u) = None) ->
  attempts (Seq (Group n (Plus k)) (Seq (Lit l) r)) t
  = match run_of (in_class k) t with
    | Some (ds, t') =>
        map (then_ (Attempt ds t' [(n, ds)])) (attempts (Seq (Lit l) r) t')
    | None => []
    end.
Proof.
  intros L.
  change (attempts (Seq (Group n (Plus k)) (Seq (Lit l) r)) t)
    with (flat_map (fun a => map (then_ a) (attempts (Seq (Lit l) r) (rest a)))
            (map (close n) (plus (in_class k) t))).
  pose proof (plus_run_of (in_class k) t) as H.
  destruct (run_of (in_class k) t) as [[ds t']|].
  - destruct H as (shorter & -> & F). cbn [map flat_map].
    rewrite flat_map_nothing; [apply app_nil_r|].
    apply Forall_map. eapply Forall_impl; [exact F|].
    intros a (c & u & Ra & Pc). cbn [close rest].
    rewrite attempts_seq_lit, Ra, (L c u Pc). reflexivity.
  - rewrite H. reflexivity.
Qed.

Lemma head_group_plus (n : nat) (k : cclass) (t : str) :
  head (attempts (Group n (Plus k)) t)
  = match run_of (in_class k) t with
    | Some (ds, t') => Some (Attempt ds t' [(n, ds)])
    | None => None
    end.
Proof.
  cbn [attempts]. pose proof (plus_run_of (in_class k) t) as H.
  destruct (run_of (in_class k) t) as [[ds t']|].
  - destruct H as (shorter & -> & _). reflexivity.
  - rewrite H. reflexivity.
Qed.

End Matcher.

(** ** The two tag patterns in closed form *)

Section TagPattern.

Lemma digit_then_space (c : ascii) (u : str) :
  in_class Digit c = true -> strip_prefix (txt " ") (c :: u) = None.
Proof.
  intros H. apply strip_prefix_other. intros <-. discriminate H.
Qed.

Lemma attempts_seq_phase (r : regex) (t : str) :
  attempts (Seq (Group 2 (Alt (Lit (txt "BEFORE")) (Lit (txt "AFTER")))) r) t
  = match scan_phase t with
    | Some (ph, t') => map (then_ (Attempt ph t' [(2, ph)])) (attempts r t')
    | None => []
    end.
Proof.
  cbn [attempts]. unfold scan_phase.
  destruct (strip_prefix (txt "BEFORE") t) as [t'|] eqn:B.
  - apply strip_prefix_inv in B. subst t. simpl. apply app_nil_r.
  - destruct (strip_prefix (txt "AFTER") t) as [t'|]; simpl; [|reflexivity].
    apply app_nil_r.
Qed.

(** [re.match] with a tag pattern finds exactly what the scan finds. *)
Lemma tag_match_scan (tag : string) (line : str) :
  option_map caps (re_match (tag_re tag) line)
  = option_map groups_of (scan_tag tag line).
Proof.
  unfold re_match, tag_re, scan_tag.
  rewrite attempts_seq_lit.
  destruct (strip_prefix (txt tag) line) as [t1|];
    cbn [mbind option_bind]; [|reflexivity].
  rewrite attempts_seq_group_plus by exact digit_then_space.
  change (in_class Digit) with Chars.is_digit.
  destruct (run_of Chars.is_digit t1) as [[ds t2]|];
    cbn [mbind option_bind]; [|reflexivity].
  rewrite attempts_seq_lit.
  destruct (strip_prefix (txt " ") t2) as [t3|];
    cbn [mbind option_bind]; [|reflexivity].
  rewrite attempts_seq_phase.
  destruct (scan_phase t3) as [[ph t4]|];
    cbn [mbind option_bind]; [|reflexivity].
  rewrite attempts_seq_lit.
  destruct (strip_prefix (txt "]") t4) as [t5|];
    cbn [mbind option_bind]; [|reflexivity].
  rewrite !head_map, head_group_plus.
  change (in_class Dot) with Chars.is_dot.
  destruct (run_of Chars.is_dot t5) as [[body t6]|]; reflexivity.
Qed.

End TagPattern.

Section Lines.

Lemma scan_phase_inv (t ph t' : str) :
  scan_phase t = Some (ph, t') -> is_phase ph /\ t = ph ++ t'.
Proof.
  unfold scan_phase, is_phase. intros H.
  destruct (strip_prefix (txt "BEFORE") t) as [u|] eqn:B.
  - injection H as <- <-. apply strip_prefix_inv in B. auto.
  - destruct (strip_prefix (txt "AFTER") t) as [u|] eqn:A; [|discriminate].
    injection H as <- <-. apply strip_prefix_inv in A. auto.
Qed.

Lemma scan_phase_token (ph t : str) :
  is_phase ph -> scan_phase (ph ++ t) = Some (ph, t).
Proof.
  unfold scan_phase. intros [-> | ->].
  - rewrite strip_prefix_app. reflexivity.
  - change (strip_prefix (txt "BEFORE") (txt "AFTER" ++ t)) with (@None str).
    rewrite strip_prefix_app. reflexivity.
Qed.

Lemma scan_tag_inv (tag : string) (line ds ph body : str) :
  scan_tag tag line = Some (ds, ph, body) ->
  exists tail,
    line = tagged tag ds ph (body ++ tail) /\ well_formed ds ph body tail.
Proof.
  unfold scan_tag, tagged, well_formed. intros H.
  destruct (strip_prefix (txt tag) line) as [t1|] eqn:E1;
    cbn [mbind option_bind] in H; [|discriminate].
  destruct (run_of Chars.is_digit t1) as [[ds' t2]|] eqn:E2;
    cbn [mbind option_bind] in H; [|discriminate].
  destruct (strip_prefix (txt " ") t2) as [t3|] eqn:E3;
    cbn [mbind option_bind] in H; [|discriminate].
  destruct (scan_phase t3) as [[ph' t4]|] eqn:E4;
    cbn [mbind option_bind] in H; [|discriminate].
  destruct (strip_prefix (txt "]") t4) as [t5|] eqn:E5;
    cbn [mbind option_bind] in H; [|discriminate].
  destruct (run_of Chars.is_dot t5) as [[body' tail]|] eqn:E6;
    cbn [mbind option_bind] in H; [|discriminate].
  injection H as -> -> ->.
  apply strip_prefix_inv in E1, E3, E5.
  apply run_of_inv in E2 as (-> & N2 & D2 & _).
  apply run_of_inv in E6 as (-> & N6 & D6 & S6).
  apply scan_phase_inv in E4 as (P & ->).
  subst. exists tail. auto 10.
Qed.

Lemma scan_tag_shape (tag : string) (ds ph body tail : str) :
  well_formed ds ph body tail ->
  scan_tag tag (tagged tag ds ph (body ++ tail)) = Some (ds, ph, body).
Proof.
  intros (N & D & P & NB & DB & S). unfold scan_tag, tagged.
  rewrite strip_prefix_app. cbn [mbind option_bind].
  rewrite run_of_max by (auto; reflexivity). cbn [mbind option_bind].
  rewrite strip_prefix_app. cbn [mbind option_bind].
  rewrite scan_phase_token by exact P. cbn [mbind option_bind].
  rewrite strip_prefix_app. cbn [mbind option_bind].
  rewrite run_of_max by auto. reflexivity.
Qed.

(** The two tags exclude each other. *)
Lemma scan_other_tag (ds ph after : str) :
  scan_tag "[MQC #" (tagged "[MQE #" ds ph after) = None
  /\ scan_tag "[MQE #" (tagged "[MQC #" ds ph after) = None.
Proof. split; reflexivity. Qed.

Lemma record_of_caps (m : attempt) (g : str * str * str) :
  caps m = groups_of g -> record_of m = fields g.
Proof.
  destruct g as [[ds ph] body]. unfold record_of, group. intros ->.
  reflexivity.
Qed.

(** What [re.match] with a tag pattern hands to the record. *)
Lemma tag_match_record (tag : string) (line : str) :
  option_map record_of (re_match (tag_re tag) line)
  = option_map fields (scan_tag tag line).
Proof.
  pose proof (tag_match_scan tag line) as H.
  destruct (re_match (tag_re tag) line) as [m|];
    destruct (scan_tag tag line) as [g|]; try discriminate; [|reflexivity].
  simpl in *. f_equal. apply record_of_caps. congruence.
Qed.

Lemma tag_match_groups (tag : string) (line : str) (m : attempt) :
  re_match (tag_re tag) line = Some m ->
  scan_tag tag line = Some (group 1 m, group 2 m, group 3 m).
Proof.
  intros E. pose proof (tag_match_scan tag line) as H. rewrite E in H.
  destruct (scan_tag tag line) as [[[ds ph] body]|]; [|discriminate].
  simpl in H. injection H as H. unfold group. rewrite H. reflexivity.
Qed.

End Lines.

(** ** [strip] and [int] *)

Section Text.

Lemma lstrip_nil (t : str) :
  lstrip t = [] <-> forallb Chars.is_space t = true.
Proof.
  induction t as [|c t IH]; simpl; [tauto|].
  destruct (Chars.is_space c); simpl; [exact IH|].
  split; discriminate.
Qed.

Lemma lstrip_twice (t : str) : lstrip (lstrip t) = lstrip t.
Proof.
  induction t as [|c t IH]; simpl; [reflexivity|].
  destruct (Chars.is_space c) eqn:E; [exact IH|]. simpl. rewrite E. reflexivity.
Qed.

Lemma forallb_rev (p : ascii -> bool) (t : str) :
  forallb p (rev t) = forallb p t.
Proof.
  induction t as [|c t IH]; simpl; [reflexivity|].
  rewrite forallb_app, IH. simpl. rewrite andb_true_r. apply andb_comm.
Qed.

(** The payload is empty exactly when there was nothing but whitespace. *)
Lemma strip_nil (t : str) :
  strip t = [] <-> forallb Chars.is_space t = true.
Proof.
  unfold strip, rstrip. rewrite <- lstrip_nil.
  split.
  - intros H. apply (f_equal (@rev ascii)) in H. rewrite rev_involutive in H.
    simpl in H. apply lstrip_nil in H. rewrite forallb_rev in H.
    apply lstrip_nil in H. rewrite lstrip_twice in H. exact H.
  - intros ->. reflexivity.
Qed.

(** Whitespace at the very end of the text does not reach the payload. *)
Lemma strip_trailing (t : str) (c : ascii) :
  Chars.is_space c = true -> strip (t ++ [c]) = strip t.
Proof.
  intros Hc. unfold strip, rstrip.
  induction t as [|a t IH]; simpl.
  - rewrite Hc. reflexivity.
  - destruct (Chars.is_space a) eqn:E; [exact IH|].
    simpl. rewrite rev_app_distr. simpl. rewrite Hc. reflexivity.
Qed.

Lemma int_snoc (ds : str) (c : ascii) :
  int (ds ++ [c]) = (10 * int ds + digit_value c)%Z.
Proof. unfold int. rewrite fold_left_app. reflexivity. Qed.

Lemma digit_value_range (c : ascii) :
  Chars.is_digit c = true -> (0 <= digit_value c <= 9)%Z.
Proof.
  unfold Chars.is_digit, digit_value. intros H.
  apply andb_prop in H as [A B].
  apply Nat.leb_le in A, B. lia.
Qed.

Lemma digit_value_inj (c c' : ascii) :
  Chars.is_digit c = true -> Chars.is_digit c' = true ->
  digit_value c = digit_value c' -> c = c'.
Proof.
  unfold Chars.is_digit, digit_value, Chars.code. intros H H' E.
  apply andb_prop in H as [A _]. apply andb_prop in H' as [A' _].
  apply Nat.leb_le in A, A'.
  rewrite <- (ascii_nat_embedding c), <- (ascii_nat_embedding c').
  f_equal. lia.
Qed.

Lemma int_upper (ds : str) :
  forallb Chars.is_digit ds = true ->
  (0 <= int ds < 10 ^ Z.of_nat (length ds))%Z.
Proof.
  induction ds as [|c ds IH] using rev_ind; intros H.
  - simpl. unfold int. simpl. lia.
  - rewrite forallb_app in H. apply andb_prop in H as [Hd Hc].
    simpl in Hc. rewrite andb_true_r in Hc.
    specialize (IH Hd). pose proof (digit_value_range c Hc).
    rewrite int_snoc, length_app, Nat.add_comm. simpl length.
    rewrite Nat2Z.inj_succ, Z.pow_succ_r by lia. lia.
Qed.

Lemma int_lower (c : ascii) (r : str) :
  forallb Chars.is_digit (c :: r) = true -> c <> "0"%char ->
  (10 ^ Z.of_nat (length r) <= int (c :: r))%Z.
Proof.
  induction r as [|x r IH] using rev_ind; intros H N.
  - simpl in H. rewrite andb_true_r in H.
    pose proof (digit_value_range c H).
    assert (digit_value c <> 0%Z).
    { intros E. apply N. apply digit_value_inj; auto. }
    unfold int. simpl. lia.
  - change (c :: r ++ [x]) with ((c :: r) ++ [x]) in *.
    rewrite forallb_app in H. apply andb_prop in H as [Hd Hx].
    simpl in Hx. rewrite andb_true_r in Hx.
    specialize (IH Hd N). pose proof (digit_value_range x Hx).
    rewrite int_snoc, length_app, Nat.add_comm. simpl length.
    rewrite Nat2Z.inj_succ, Z.pow_succ_r by lia. lia.
Qed.

Lemma int_inj_length (a : str) :
  forall b,
    forallb Chars.is_digit a = true -> forallb Chars.is_digit b = true ->
    length a = length b -> int a = int b -> a = b.
Proof.
  induction a as [|x a IH] using rev_ind; intros b Ha Hb L E.
  - destruct b; [reflexivity | discriminate].
  - destruct b as [|y b _] using rev_ind.
    + rewrite length_app in L. simpl in L. lia.
    + rewrite !forallb_app in *.
      apply andb_prop in Ha as [Ha Hx]. apply andb_prop in Hb as [Hb Hy].
      simpl in Hx, Hy. rewrite andb_true_r in Hx, Hy.
      rewrite !length_app in L. simpl in L.
      rewrite !int_snoc in E.
      pose proof (digit_value_range x Hx). pose proof (digit_value_range y Hy).
      assert (int a = int b) as Ei by lia.
      assert (digit_value x = digit_value y) as Ed by lia.
      rewrite (IH b Ha Hb) by (lia || exact Ei).
      rewrite (digit_value_inj x y Hx Hy Ed). reflexivity.
Qed.

(** Canonical ASCII numerals are equal exactly when their values are. *)
Lemma int_inj_canonical (a b : str) :
  ascii_canonical a -> ascii_canonical b -> int a = int b -> a = b.
Proof.
  intros [Da [-> | (c & r & -> & Nc)]] [Db [-> | (c' & r' & -> & Nc')]] E.
  - reflexivity.
  - pose proof (int_lower c' r' Db Nc') as L.
    rewrite <- E in L. change (int (txt "0")) with 0%Z in L.
    pose proof (Z.pow_pos_nonneg 10 (Z.of_nat (length r'))). lia.
  - pose proof (int_lower c r Da Nc) as L.
    rewrite E in L. change (int (txt "0")) with 0%Z in L.
    pose proof (Z.pow_pos_nonneg 10 (Z.of_nat (length r))). lia.
  - apply int_inj_length; auto.
    pose proof (int_lower c r Da Nc) as L.
    pose proof (int_lower c' r' Db Nc') as L'.
    pose proof (int_upper _ Da) as U. pose proof (int_upper _ Db) as U'.
    simpl length in *.
    destruct (Nat.lt_trichotomy (length r) (length r')) as [H | [H | H]].
    + exfalso.
      assert (10 ^ Z.of_nat (S (length r)) <= 10 ^ Z.of_nat (length r'))%Z
        by (apply Z.pow_le_mono_r; lia).
      lia.
    + rewrite H. reflexivity.
    + exfalso.
      assert (10 ^ Z.of_nat (S (length r')) <= 10 ^ Z.of_nat (length r))%Z
        by (apply Z.pow_le_mono_r; lia).
      lia.
Qed.

End Text.

(** ** The state sub-pattern in closed form *)

Section StatePattern.

Lemma digit_then_new_mps (c : ascii) (u : str) :
  in_class Digit c = true -> strip_prefix (txt " newMPS=") (c :: u) = None.
Proof.
  intros H. apply strip_prefix_other. intros <-. discriminate H.
Qed.

Lemma state_match_scan (t : str) :
  option_map (fun m => (group 1 m, group 2 m)) (re_match state_re t)
  = scan_state t.
Proof.
  unfold re_match, state_re, scan_state.
  rewrite attempts_seq_lit.
  destruct (strip_prefix (txt "newState=") t) as [t1|];
    cbn [mbind option_bind]; [|reflexivity].
  rewrite attempts_seq_group_plus by exact digit_then_new_mps.
  change (in_class Digit) with Chars.is_digit.
  destruct (run_of Chars.is_digit t1) as [[a t2]|];
    cbn [mbind option_bind]; [|reflexivity].
  rewrite attempts_seq_lit.
  destruct (strip_prefix (txt " newMPS=") t2) as [t3|];
    cbn [mbind option_bind]; [|reflexivity].
  rewrite !head_map, head_group_plus.
  change (in_class Digit) with Chars.is_digit.
  destruct (run_of Chars.is_digit t3) as [[b t4]|]; reflexivity.
Qed.

Lemma snapshot_find_state (t : str) : snapshot t = find_state t.
Proof.
  unfold snapshot. induction t as [|c t IH]; cbn [re_search find_state];
    rewrite <- (state_match_scan _);
    destruct (re_match state_re _) as [m|]; simpl; auto.
Qed.

Lemma scan_state_inv (t a b : str) :
  scan_state t = Some (a, b) ->
  forallb Chars.is_digit a = true /\ a <> []
  /\ forallb Chars.is_digit b = true /\ b <> []
  /\ exists post, t = txt "newState=" ++ a ++ txt " newMPS=" ++ b ++ post.
Proof.
  unfold scan_state. intros H.
  destruct (strip_prefix (txt "newState=") t) as [t1|] eqn:E1;
    cbn [mbind option_bind] in H; [|discriminate].
  destruct (run_of Chars.is_digit t1) as [[a' t2]|] eqn:E2;
    cbn [mbind option_bind] in H; [|discriminate].
  destruct (strip_prefix (txt " newMPS=") t2) as [t3|] eqn:E3;
    cbn [mbind option_bind] in H; [|discriminate].
  destruct (run_of Chars.is_digit t3) as [[b' t4]|] eqn:E4;
    cbn [mbind option_bind] in H; [|discriminate].
  injection H as -> ->.
  apply strip_prefix_inv in E1, E3.
  apply run_of_inv in E2 as (-> & Na & Da & _).
  apply run_of_inv in E4 as (-> & Nb & Db & _).
  subst. repeat split; auto. exists t4. reflexivity.
Qed.

(** A snapshot is a pair of non-empty digit strings that stand in the
    payload as [newState=a newMPS=b]. *)
Lemma snapshot_inv (t a b : str) :
  snapshot t = Some (a, b) ->
  forallb Chars.is_digit a = true /\ a <> []
  /\ forallb Chars.is_digit b = true /\ b <> []
  /\ exists pre post,
       t = pre ++ txt "newState=" ++ a ++ txt " newMPS=" ++ b ++ post.
Proof.
  rewrite snapshot_find_state.
  induction t as [|c t IH]; cbn [find_state]; intros H.
  - destruct (scan_state []) as [st|] eqn:E; [|discriminate].
    injection H as ->. apply scan_state_inv in E as (A & B & C & D & post & E).
    repeat split; auto. exists [], post. exact E.
  - destruct (scan_state (c :: t)) as [st|] eqn:E.
    + injection H as ->. apply scan_state_inv in E as (A & B & C & D & post & E).
      repeat split; auto. exists [], post. exact E.
    + destruct (IH H) as (A & B & C & D & pre & post & ->).
      repeat split; auto. exists (c :: pre), post. reflexivity.
Qed.

End StatePattern.

(** ** Reading a run *)

Section Runs.

Variables enc dec : list TraceLine.

Lemma examined_app (o1 o2 : list printed) :
  examined (o1 ++ o2) = examined o1 ++ examined o2.
Proof. apply omap_app. Qed.

Lemma verdicts_app (o1 o2 : list printed) :
  verdicts (o1 ++ o2) = verdicts o1 ++ verdicts o2.
Proof. apply filter_app. Qed.

Lemma block_cases (i : nat) :
  match snapshot_at enc i, snapshot_at dec i with
  | Some a, Some b =>
      (a = b /\ mismatch_at enc dec i = false
       /\ verdict enc dec i = [StatesMatch a])
      \/ (a <> b /\ mismatch_at enc dec i = true
          /\ verdict enc dec i = [StateMismatch a b])
  | _, _ => mismatch_at enc dec i = false /\ verdict enc dec i = []
  end.
Proof.
  unfold mismatch_at, verdict.
  destruct (snapshot_at enc i) as [a|], (snapshot_at dec i) as [b|]; auto.
  destruct (bool_decide (a <> b)) eqn:E.
  - apply bool_decide_eq_true_1 in E. auto.
  - apply bool_decide_eq_false_1 in E. left.
    destruct (decide (a = b)); [auto | contradiction].
Qed.

Lemma examined_block (i : nat) : examined (block enc dec i) = [i + 1].
Proof.
  unfold block. pose proof (block_cases i) as H.
  destruct (snapshot_at enc i) as [a|], (snapshot_at dec i) as [b|];
    [destruct H as [(_ & _ & ->) | (_ & _ & ->)] | destruct H as [_ ->] ..];
    reflexivity.
Qed.

Lemma examined_blocks (l : list nat) :
  examined (concat (map (block enc dec) l)) = map (fun i => i + 1) l.
Proof.
  induction l as [|i l IH]; cbn [map concat]; [reflexivity|].
  rewrite examined_app, examined_block, IH. reflexivity.
Qed.

Lemma verdicts_block (i : nat) :
  verdicts (block enc dec i) = verdict enc dec i.
Proof.
  unfold block. pose proof (block_cases i) as H.
  destruct (snapshot_at enc i) as [a|], (snapshot_at dec i) as [b|];
    [destruct H as [(_ & _ & ->) | (_ & _ & ->)] | destruct H as [_ ->] ..];
    reflexivity.
Qed.

Lemma verdicts_blocks (l : list nat) :
  verdicts (concat (map (block enc dec) l)) = concat (map (verdict enc dec) l).
Proof.
  induction l as [|i l IH]; cbn [map concat]; [reflexivity|].
  rewrite verdicts_app, verdicts_block, IH. reflexivity.
Qed.

Lemma shifted_seq (n : nat) : map (fun i => i + 1) (seq 0 n) = seq 1 n.
Proof.
  rewrite <- seq_shift. apply map_ext. intros i. lia.
Qed.

Lemma seq_split_at (i n : nat) :
  i < n -> seq 0 n = seq 0 i ++ i :: seq (S i) (n - S i).
Proof.
  intros H. replace n with (i + S (n - S i)) at 1 by lia.
  rewrite seq_app. reflexivity.
Qed.

(** No mismatch among the indices: all are visited. *)
Lemma visited_clean (l : list nat) :
  Forall (fun j => mismatch_at enc dec j = false) l ->
  visited enc dec l = l /\ outcome enc dec l = Exhausted.
Proof.
  unfold outcome. induction 1 as [|j l M _ [IHv IHo]]; simpl; [auto|].
  rewrite M, IHv. simpl. auto.
Qed.

(** The loop gets past a clean prefix. *)
Lemma visited_prefix (l1 l2 : list nat) :
  Forall (fun j => mismatch_at enc dec j = false) l1 ->
  visited enc dec (l1 ++ l2) = l1 ++ visited enc dec l2
  /\ outcome enc dec (l1 ++ l2) = outcome enc dec l2.
Proof.
  unfold outcome. induction 1 as [|j l M _ [IHv IHo]]; simpl; [auto|].
  rewrite M, IHv. simpl. auto.
Qed.

Lemma clean_below (i : nat) :
  (forall j, j < i -> mismatch_at enc dec j = false) ->
  Forall (fun j => mismatch_at enc dec j = false) (seq 0 i).
Proof.
  intros H. apply List.Forall_forall. intros j Hj. apply in_seq in Hj.
  apply H. lia.
Qed.

(** The run up to an operation that is reached, and from it on. *)
Lemma run_reaching (i : nat) :
  i < window enc dec ->
  (forall j, j < i -> mismatch_at enc dec j = false) ->
  run (compare enc dec)
  = (preamble enc dec
       ++ concat (map (block enc dec) (seq 0 i))
       ++ concat (map (block enc dec)
                    (visited enc dec (i :: seq (S i) (window enc dec - S i)))),
     inr (outcome enc dec (i :: seq (S i) (window enc dec - S i)))).
Proof.
  intros Hi Hc. rewrite compare_run, (seq_split_at i _ Hi).
  destruct (visited_prefix (seq 0 i) (i :: seq (S i) (window enc dec - S i))
              (clean_below i Hc)) as [-> ->].
  rewrite map_app, concat_app. reflexivity.
Qed.

End Runs.

(** ** The comparison: what is compared, when it stops, how far it goes *)

Section Comparison.

Variables enc dec : list TraceLine.

(** C2: when operation [i] of the window is the first whose two
    snapshots are both present and unequal, the run prints the blocks of
    the operations before it, then the lines of operation [i] followed by
    a mismatch notice naming both snapshots, and ends there: the loop is
    left by [break] and the operations announced are exactly 1 .. i+1. *)
Theorem stops_at_first_mismatch (i : nat) (a b : str * str) :
  i < window enc dec ->
  (forall j, j < i -> mismatch_at enc dec j = false) ->
  snapshot_at enc i = Some a ->
  snapshot_at dec i = Some b ->
  a <> b ->
  run (compare enc dec)
  = (preamble enc dec
       ++ concat (map (block enc dec) (seq 0 i))
       ++ op_lines enc dec i ++ [StateMismatch a b; Blank],
     inr Diverged)
  /\ examined (fst (run (compare enc dec))) = seq 1 (S i).
Proof.
  intros Hi Hc Ha Hb Hab.
  pose proof (block_cases enc dec i) as B. rewrite Ha, Hb in B.
  destruct B as [(E & _) | (_ & M & V)]; [contradiction|].
  assert (run (compare enc dec)
          = (preamble enc dec ++ concat (map (block enc dec) (seq 0 i))
               ++ op_lines enc dec i ++ [StateMismatch a b; Blank],
             inr Diverged)) as R.
  { rewrite (run_reaching enc dec i Hi Hc).
    unfold outcome. cbn [visited existsb]. rewrite M.
    cbn [map concat orb]. unfold block. rewrite V, app_nil_r. reflexivity. }
  split; [exact R|].
  rewrite R. cbn [fst].
  rewrite !examined_app, examined_blocks, shifted_seq.
  replace (S i) with (i + 1) by lia. rewrite seq_app.
  cbn [examined omap preamble op_lines app]. rewrite Nat.add_comm.
  reflexivity.
Qed.

(** C1, as amended: at an operation of the window that the loop reaches
    and whose two snapshots are both present, the verdict printed after
    the operation's lines is decided by comparing the captured digit
    strings.  It is a match exactly when both strings of one side equal
    those of the other, a mismatch exactly when one differs; fields with
    different integer values always give a mismatch, and when all four
    fields are written with the ASCII digits 0 to 9 and without
    superfluous zeros in front, the verdict is a match exactly when the
    integer values agree. *)
Theorem verdict_compares_digit_strings (i : nat) (a b : str * str) :
  i < window enc dec ->
  (forall j, j < i -> mismatch_at enc dec j = false) ->
  snapshot_at enc i = Some a ->
  snapshot_at dec i = Some b ->
  exists v later,
    fst (run (compare enc dec))
    = preamble enc dec
        ++ concat (map (block enc dec) (seq 0 i))
        ++ op_lines enc dec i ++ [v; Blank] ++ later
    /\ (v = StatesMatch a <-> a = b)
    /\ (v = StateMismatch a b <-> a <> b)
    /\ (int (fst a) <> int (fst b) \/ int (snd a) <> int (snd b) ->
        v = StateMismatch a b)
    /\ (ascii_canonical (fst a) -> ascii_canonical (snd a) ->
        ascii_canonical (fst b) -> ascii_canonical (snd b) ->
        (v = StatesMatch a
         <-> int (fst a) = int (fst b) /\ int (snd a) = int (snd b))).
Proof.
  intros Hi Hc Ha Hb.
  rewrite (run_reaching enc dec i Hi Hc). cbn [fst].
  pose proof (block_cases enc dec i) as B. rewrite Ha, Hb in B.
  destruct B as [(E & M & V) | (N & M & V)].
  - subst b. exists (StatesMatch a).
    exists (concat (map (block enc dec)
                      (visited enc dec (seq (S i) (window enc dec - S i))))).
    cbn [visited]. rewrite M. cbn [map concat]. unfold block at 2.
    rewrite V, <- !app_assoc.
    split; [reflexivity|]. split; [tauto|]. split; [|split].
    + split; [discriminate | intros N; exfalso; apply N; reflexivity].
    + intros [N | N]; exfalso; apply N; reflexivity.
    + tauto.
  - exists (StateMismatch a b), [].
    cbn [visited]. rewrite M. cbn [map concat]. unfold block at 2.
    rewrite V, <- !app_assoc.
    split; [reflexivity|]. split; [|split; [tauto|split]].
    + split; [discriminate | intros E; contradiction].
    + reflexivity.
    + intros C1 C2 C3 C4. split; [discriminate|].
      intros [E1 E2]. exfalso. apply N.
      destruct a as [a1 a2], b as [b1 b2]. simpl in *.
      f_equal; apply int_inj_canonical; assumption.
Qed.

(** C3: the operation counts printed first are [len // 2] of each
    stream; the window is the least of 50 and the two counts, no run
    announces more operations than that, and a run without a mismatch
    announces exactly the operations 1 .. window and ends by exhaustion.
    With 200 lines on each side that is 50 operations. *)
Theorem window_bound :
  let n := Nat.min 50 (Nat.min (length enc / 2) (length dec / 2)) in
  let out := fst (run (compare enc dec)) in
  take 3 out
  = [ EncoderOperations (length enc / 2);
      DecoderOperations (length dec / 2);
      Blank ]
  /\ length (examined out) <= n
  /\ ((forall j, j < n -> mismatch_at enc dec j = false) ->
      examined out = seq 1 n /\ snd (run (compare enc dec)) = inr Exhausted)
  /\ (length enc = 200 -> length dec = 200 ->
      (forall j, j < 50 -> mismatch_at enc dec j = false) ->
      length (examined out) = 50).
Proof.
  intros n out. subst out. fold (window enc dec) in n.
  assert (forall l, length (visited enc dec l) <= length l) as Lv.
  { induction l as [|j l IH]; simpl; [lia|].
    destruct (mismatch_at enc dec j); simpl; lia. }
  assert ((forall j, j < n -> mismatch_at enc dec j = false) ->
          examined (fst (run (compare enc dec))) = seq 1 n
          /\ snd (run (compare enc dec)) = inr Exhausted) as Clean.
  { intros Hc. rewrite compare_run. cbn [fst snd].
    destruct (visited_clean enc dec (seq 0 n) (clean_below enc dec n Hc))
      as [V O].
    fold n. rewrite V, O, examined_app, examined_blocks, shifted_seq.
    auto. }
  split; [|split; [|split]].
  - rewrite compare_run. reflexivity.
  - rewrite compare_run. cbn [fst].
    rewrite examined_app, examined_blocks, length_app, length_map.
    specialize (Lv (seq 0 (window enc dec))). rewrite length_seq in Lv.
    simpl. exact Lv.
  - exact Clean.
  - intros Le Ld Hc.
    assert (n = 50) as N by (subst n; unfold window; rewrite Le, Ld; reflexivity).
    rewrite N in Clean. destruct (Clean Hc) as [-> _]. apply length_seq.
Qed.

(** C4: at an operation of the window that the loop reaches and for
    which a snapshot is missing on either side, the operation's lines
    are followed by the blank line alone, without a verdict, and the run
    goes on as the loop from operation [i+1] does; when that operation
    is still in the window, its whole block, verdict included, comes
    next. *)
Theorem missing_snapshot_skipped (i : nat) :
  i < window enc dec ->
  (forall j, j < i -> mismatch_at enc dec j = false) ->
  snapshot_at enc i = None \/ snapshot_at dec i = None ->
  let log :=
    preamble enc dec ++ concat (map (block enc dec) (seq 0 i))
      ++ op_lines enc dec i ++ [Blank] in
  run (compare enc dec)
  = for_range (operation enc dec) (seq (S i) (window enc dec - S i)) log
  /\ (S i < window enc dec ->
      exists later,
        fst (run (compare enc dec)) = log ++ block enc dec (S i) ++ later).
Proof.
  intros Hi Hc Hs log. subst log.
  destruct (window_in_range enc dec) as [He Hd].
  assert (mismatch_at enc dec i = false /\ verdict enc dec i = []) as [M V].
  { pose proof (block_cases enc dec i) as B.
    destruct Hs as [Hs | Hs]; rewrite Hs in B; [exact B|].
    destruct (snapshot_at enc i); exact B. }
  assert (block enc dec i = op_lines enc dec i ++ [Blank]) as Bi
    by (unfold block; rewrite V; reflexivity).
  rewrite (run_reaching enc dec i Hi Hc).
  cbn [visited existsb]. unfold outcome at 1. cbn [existsb].
  rewrite M. cbn [map concat orb]. rewrite Bi. split.
  - rewrite for_range_in_range by lia. unfold outcome.
    rewrite <- !app_assoc. reflexivity.
  - intros Hn. cbn [fst].
    replace (window enc dec - S i) with (S (window enc dec - S (S i))) by lia.
    cbn [seq visited].
    destruct (mismatch_at enc dec (S i)); cbn [map concat];
      eexists; rewrite <- !app_assoc; reflexivity.
Qed.

(** C5: a run never ends in an exception: it ends by exhaustion or by
    [break], and by [break] exactly when some operation of the window has
    two present, unequal snapshots.  When at every position of the window
    both snapshots are present and equal, the run ends by exhaustion,
    announces every operation 1 .. window, and prints one match
    confirmation per operation and nothing else as a verdict. *)
Theorem full_match_exhausts :
  let n := window enc dec in
  (exists out t,
      run (compare enc dec) = (out, inr t) /\ (t = Exhausted \/ t = Diverged))
  /\ (snd (run (compare enc dec)) = inr Diverged
      <-> exists i, i < n /\ mismatch_at enc dec i = true)
  /\ ((forall i, i < n ->
         exists a, snapshot_at enc i = Some a /\ snapshot_at dec i = Some a) ->
      snd (run (compare enc dec)) = inr Exhausted
      /\ examined (fst (run (compare enc dec))) = seq 1 n
      /\ length (verdicts (fst (run (compare enc dec)))) = n
      /\ Forall (fun v => exists a, v = StatesMatch a)
           (verdicts (fst (run (compare enc dec))))).
Proof.
  intros n. subst n. split; [|split].
  - rewrite compare_run. eexists _, _. split; [reflexivity|].
    destruct (outcome enc dec _); auto.
  - rewrite compare_run. cbn [snd]. unfold outcome.
    destruct (existsb _ _) eqn:E.
    + split; [|reflexivity]. intros _.
      apply existsb_exists in E as (i & Hi & M). apply in_seq in Hi.
      exists i. split; [lia | exact M].
    + split; [discriminate|]. intros (i & Hi & M). exfalso.
      assert (existsb (mismatch_at enc dec) (seq 0 (window enc dec)) = true).
      { apply existsb_exists. exists i. split; [|exact M].
        apply in_seq. lia. }
      congruence.
  - intros Hall.
    assert (forall i, i < window enc dec ->
              mismatch_at enc dec i = false
              /\ exists a, verdict enc dec i = [StatesMatch a]) as Hv.
    { intros i Hi. destruct (Hall i Hi) as (a & Ha & Hb).
      pose proof (block_cases enc dec i) as B. rewrite Ha, Hb in B.
      destruct B as [(_ & M & V) | (N & _)]; [eauto | contradiction]. }
    assert (forall j, j < window enc dec -> mismatch_at enc dec j = false) as Hc
      by (intros j Hj; apply Hv; exact Hj).
    destruct (visited_clean enc dec _ (clean_below enc dec _ Hc)) as [V O].
    rewrite compare_run, V, O. cbn [fst snd].
    rewrite examined_app, examined_blocks, shifted_seq.
    rewrite verdicts_app, verdicts_blocks.
    split; [reflexivity|]. split; [reflexivity|].
    cbn [verdicts filter preamble app].
    assert (forall k m, k + m <= window enc dec ->
              length (concat (map (verdict enc dec) (seq k m))) = m
              /\ Forall (fun v => exists a, v = StatesMatch a)
                   (concat (map (verdict enc dec) (seq k m)))) as G.
    { intros k m. revert k. induction m as [|m IH]; intros k Hk.
      - simpl. split; [reflexivity | constructor].
      - cbn [seq map concat].
        destruct (Hv k) as (_ & a & ->); [lia|].
        destruct (IH (S k)) as [L F]; [lia|].
        simpl. split; [f_equal; exact L|]. constructor; eauto. }
    apply G. simpl. lia.
Qed.

End Comparison.

(** C8: two pairs of streams that differ only in the operation numbers
    recorded in their lines give the same run: the same lines printed in
    the same order, with the same verdicts, and the same way of ending,
    from whatever log the comparison starts. *)
Theorem pairing_ignores_op_num (enc enc' dec dec' : list TraceLine)
        (log : list printed) :
  same_but_op_num enc enc' ->
  same_but_op_num dec dec' ->
  compare enc dec log = compare enc' dec' log.
Proof.
  intros He Hd.
  assert (forall ops ops', same_but_op_num ops ops' ->
            length ops = length ops'
            /\ forall k, payload_at ops k = payload_at ops' k) as P.
  { intros ops ops' H. split; [eapply Forall2_length; exact H|].
    intros k. unfold payload_at.
    destruct (ops !! k) as [l|] eqn:E.
    - destruct (Forall2_lookup_l _ _ _ _ _ H E) as (l' & -> & _ & D).
      exact D.
    - apply lookup_ge_None in E.
      rewrite (Forall2_length _ _ _ H) in E.
      apply lookup_ge_None in E. rewrite E. reflexivity. }
  destruct (P _ _ He) as [Le Pe]. destruct (P _ _ Hd) as [Ld Pd].
  assert (forall i, mismatch_at enc dec i = mismatch_at enc' dec' i) as M.
  { intros i. unfold mismatch_at, snapshot_at. rewrite Pe, Pd. reflexivity. }
  assert (forall i, block enc dec i = block enc' dec' i) as B.
  { intros i. unfold block, verdict, op_lines, snapshot_at.
    rewrite !Pe, !Pd. reflexivity. }
  assert (forall l, visited enc dec l = visited enc' dec' l) as V.
  { induction l as [|i l IH]; simpl; [reflexivity|].
    rewrite M, IH. reflexivity. }
  assert (forall l, outcome enc dec l = outcome enc' dec' l) as O.
  { intros l. unfold outcome.
    replace (existsb (mismatch_at enc' dec') l)
      with (existsb (mismatch_at enc dec) l); [reflexivity|].
    induction l as [|i l IH]; simpl; [reflexivity|].
    rewrite M, IH. reflexivity. }
  rewrite !compare_from. unfold window, preamble.
  rewrite Le, Ld, V, O. f_equal. f_equal. f_equal. f_equal.
  apply map_ext. exact B.
Qed.

(** ** Parsing: which lines give records, and in what order *)

Section Parsing.

Lemma parse_line_records (e d : list TraceLine) (line : str) :
  parse_line (e, d) line
  = (e ++ option_list (enc_record line), d ++ option_list (dec_record line)).
Proof.
  unfold parse_line, enc_record, dec_record.
  destruct (re_match enc_re line), (re_match dec_re line); simpl;
    rewrite ?app_nil_r; reflexivity.
Qed.

Lemma parse_from (lines : list str) :
  forall e d,
    fold_left parse_line lines (e, d)
    = (e ++ omap enc_record lines, d ++ omap dec_record lines).
Proof.
  induction lines as [|line lines IH]; intros e d; cbn [fold_left].
  - simpl. rewrite !app_nil_r. reflexivity.
  - rewrite parse_line_records, IH, <- !app_assoc. cbn [omap list_omap].
    destruct (enc_record line), (dec_record line); reflexivity.
Qed.

(** Each stream is the input filtered through its own pattern. *)
Lemma parse_streams (lines : list str) :
  parse_mq_operations lines = (omap enc_record lines, omap dec_record lines).
Proof. unfold parse_mq_operations. rewrite parse_from. reflexivity. Qed.

Lemma enc_record_scan (line : str) :
  enc_record line = option_map fields (scan_tag "[MQE #" line).
Proof. apply tag_match_record. Qed.

Lemma dec_record_scan (line : str) :
  dec_record line = option_map fields (scan_tag "[MQC #" line).
Proof. apply tag_match_record. Qed.

(** A line of the tagged shape matches the pattern of its tag. *)
Lemma tagged_line_matches (tag : string) (ds ph body tail : str) :
  well_formed ds ph body tail ->
  exists m,
    re_match (tag_re tag) (tagged tag ds ph (body ++ tail)) = Some m
    /\ group 1 m = ds /\ group 2 m = ph /\ group 3 m = body.
Proof.
  intros W. pose proof (scan_tag_shape tag _ _ _ _ W) as S.
  pose proof (tag_match_scan tag (tagged tag ds ph (body ++ tail))) as H.
  rewrite S in H.
  destruct (re_match (tag_re tag) _) as [m|]; [|discriminate].
  exists m. simpl in H. injection H as H. unfold group. rewrite H. auto.
Qed.

(** A line with a tag and nothing on the line after it has no scan. *)
Lemma scan_bare_tag (tag : string) (ds ph after : str) :
  forallb Chars.is_digit ds = true -> is_phase ph ->
  after = [] \/ after = [Chars.newline] ->
  scan_tag tag (tagged tag ds ph after) = None.
Proof.
  intros D P A. unfold scan_tag, tagged.
  rewrite strip_prefix_app. cbn [mbind option_bind].
  destruct ds as [|c r]; [reflexivity|].
  rewrite run_of_max by (auto; discriminate || reflexivity).
  cbn [mbind option_bind].
  rewrite strip_prefix_app. cbn [mbind option_bind].
  rewrite scan_phase_token by exact P. cbn [mbind option_bind].
  rewrite strip_prefix_app. cbn [mbind option_bind].
  destruct A as [-> | ->]; reflexivity.
Qed.

End Parsing.

Section ParsingClaims.

(** C10: parsing no lines gives two empty streams. *)
Theorem parse_nothing : parse_mq_operations [] = ([], []).
Proof. unfold parse_mq_operations. cbn [fold_left]. reflexivity. Qed.

(** C6: a line that the encoder pattern matches is the encoder tag with
    a non-empty digit string and a phase token, followed by a non-empty
    remainder of the line; it adds to the encoder stream, and to it
    alone, the record whose number is the value of the digits, whose
    phase is the token and whose payload is the remainder with the
    whitespace at both ends removed (a final line feed makes no
    difference).  The same holds for the decoder pattern and stream.
    The line [[MQE #7 BEFORE] foo] gives the encoder record
    (7, BEFORE, foo) and no decoder record. *)
Theorem tagged_line_record (line : str) (e d : list TraceLine) :
  (forall m, re_match enc_re line = Some m ->
     exists ds ph body tail,
       line = tagged "[MQE #" ds ph (body ++ tail)
       /\ well_formed ds ph body tail
       /\ parse_line (e, d) line
          = (e ++ [mkTraceLine (int ds) ph (strip body)], d)
       /\ (tail = [] \/ tail = [Chars.newline] ->
           strip (body ++ tail) = strip body))
  /\ (forall m, re_match dec_re line = Some m ->
        exists ds ph body tail,
          line = tagged "[MQC #" ds ph (body ++ tail)
          /\ well_formed ds ph body tail
          /\ parse_line (e, d) line
             = (e, d ++ [mkTraceLine (int ds) ph (strip body)])
          /\ (tail = [] \/ tail = [Chars.newline] ->
              strip (body ++ tail) = strip body))
  /\ parse_mq_operations [txt "[MQE #7 BEFORE] foo"]
     = ([mkTraceLine 7 (txt "BEFORE") (txt "foo")], []).
Proof.
  assert (forall body tail : str,
            tail = [] \/ tail = [Chars.newline] ->
            strip (body ++ tail) = strip body) as T.
  { intros body tail [-> | ->]; [rewrite app_nil_r; reflexivity|].
    apply strip_trailing. reflexivity. }
  split; [|split]; [| |reflexivity].
  - intros m Hm. apply tag_match_groups in Hm.
    destruct (scan_tag_inv _ _ _ _ _ Hm) as (tail & L & W).
    exists (group 1 m), (group 2 m), (group 3 m), tail.
    split; [exact L|]. split; [exact W|]. split; [|apply T].
    rewrite parse_line_records, enc_record_scan, dec_record_scan, Hm.
    rewrite L at 1. rewrite (proj1 (scan_other_tag _ _ _)).
    simpl. rewrite app_nil_r. reflexivity.
  - intros m Hm. apply tag_match_groups in Hm.
    destruct (scan_tag_inv _ _ _ _ _ Hm) as (tail & L & W).
    exists (group 1 m), (group 2 m), (group 3 m), tail.
    split; [exact L|]. split; [exact W|]. split; [|apply T].
    rewrite parse_line_records, enc_record_scan, dec_record_scan, Hm.
    rewrite L at 1. rewrite (proj2 (scan_other_tag _ _ _)).
    simpl. rewrite app_nil_r. reflexivity.
Qed.

(** C7: when line [A] comes before line [B] in the input and both match
    the encoder pattern, the record of [A] comes before the record of
    [B] in the encoder stream, each at the place its line has among the
    records of the lines around it; likewise for the decoder pattern
    and the decoder stream. *)
Theorem parse_preserves_order (before between after : list str)
        (A B : str) (ma mb : attempt) :
  (re_match enc_re A = Some ma -> re_match enc_re B = Some mb ->
   fst (parse_mq_operations (before ++ A :: between ++ B :: after))
   = fst (parse_mq_operations before)
       ++ record_of ma
       :: fst (parse_mq_operations between)
       ++ record_of mb
       :: fst (parse_mq_operations after))
  /\ (re_match dec_re A = Some ma -> re_match dec_re B = Some mb ->
      snd (parse_mq_operations (before ++ A :: between ++ B :: after))
      = snd (parse_mq_operations before)
          ++ record_of ma
          :: snd (parse_mq_operations between)
          ++ record_of mb
          :: snd (parse_mq_operations after)).
Proof.
  rewrite !parse_streams. cbn [fst snd].
  split; intros HA HB.
  - rewrite omap_app. cbn [omap list_omap]. unfold enc_record at 2.
    rewrite HA. cbn [option_map]. f_equal. f_equal.
    rewrite omap_app. cbn [omap list_omap]. unfold enc_record at 2.
    rewrite HB. reflexivity.
  - rewrite omap_app. cbn [omap list_omap]. unfold dec_record at 2.
    rewrite HA. cbn [option_map]. f_equal. f_equal.
    rewrite omap_app. cbn [omap list_omap]. unfold dec_record at 2.
    rewrite HB. reflexivity.
Qed.

(** C9, as amended: a line that is a tag with nothing after the closing
    bracket (or only the line feed) adds no record to either stream, and
    whenever a pattern matches, the text it captured after the bracket
    is non-empty.  The payload stored is that text stripped, so it is
    empty exactly when the text was nothing but whitespace. *)
Theorem bare_tag_gives_no_record :
  (forall tag ds ph after e d,
      tag = "[MQE #"%string \/ tag = "[MQC #"%string ->
      forallb Chars.is_digit ds = true -> is_phase ph ->
      after = [] \/ after = [Chars.newline] ->
      parse_line (e, d) (tagged tag ds ph after) = (e, d))
  /\ (forall line m,
        re_match enc_re line = Some m \/ re_match dec_re line = Some m ->
        group 3 m <> []
        /\ (details (record_of m) = []
            <-> forallb Chars.is_space (group 3 m) = true)).
Proof.
  split.
  - intros tag ds ph after e d T D P A.
    rewrite parse_line_records, enc_record_scan, dec_record_scan.
    destruct T as [-> | ->].
    + rewrite (proj1 (scan_other_tag ds ph after)).
      rewrite (scan_bare_tag _ _ _ _ D P A).
      simpl. rewrite !app_nil_r. reflexivity.
    + rewrite (proj2 (scan_other_tag ds ph after)).
      rewrite (scan_bare_tag _ _ _ _ D P A).
      simpl. rewrite !app_nil_r. reflexivity.
  - intros line m H.
    assert (exists tag, scan_tag tag line
                        = Some (group 1 m, group 2 m, group 3 m)) as (tag & S).
    { destruct H as [H | H]; eexists; apply tag_match_groups; exact H. }
    destruct (scan_tag_inv _ _ _ _ _ S) as (tail & _ & W).
    split; [apply W|]. unfold record_of. cbn [details]. apply strip_nil.
Qed.

End ParsingClaims.

(** ** The statements at work on sample input *)

Section Samples.

(** A stream never disagrees with itself. *)
Lemma mismatch_self (ops : list TraceLine) (i : nat) :
  mismatch_at ops ops i = false.
Proof.
  unfold mismatch_at. destruct (snapshot_at ops i) as [a|]; [|reflexivity].
  apply bool_decide_eq_false_2. intros N. apply N. reflexivity.
Qed.

(** The claim C1 as it stands fails here: the two states have the same
    integer values, 5 and 0, and yet the run reports a mismatch. *)
Lemma leading_zero_mismatch :
  snapshot_at padded 0 = Some (txt "05", txt "0")
  /\ snapshot_at unpadded 0 = Some (txt "5", txt "0")
  /\ int (txt "05") = int (txt "5")
  /\ int (txt "0") = int (txt "0")
  /\ run (compare padded unpadded)
     = (preamble padded unpadded ++ op_lines padded unpadded 0
          ++ [StateMismatch (txt "05", txt "0") (txt "5", txt "0"); Blank],
        inr Diverged).
Proof. vm_compute. repeat split. Qed.

Lemma verdict_compares_digit_strings_witness :
  exists v later,
    fst (run (compare padded unpadded))
    = preamble padded unpadded
        ++ concat (map (block padded unpadded) (seq 0 0))
        ++ op_lines padded unpadded 0 ++ [v; Blank] ++ later
    /\ (v = StatesMatch (txt "05", txt "0")
        <-> (txt "05", txt "0") = (txt "5", txt "0"))
    /\ (v = StateMismatch (txt "05", txt "0") (txt "5", txt "0")
        <-> (txt "05", txt "0") <> (txt "5", txt "0")).
Proof.
  destruct (verdict_compares_digit_strings padded unpadded 0
              (txt "05", txt "0") (txt "5", txt "0"))
    as (v & later & E & M & N & _).
  - vm_compute. lia.
  - intros j Hj. lia.
  - vm_compute. reflexivity.
  - vm_compute. reflexivity.
  - exists v, later. split; [exact E|]. split; [exact M | exact N].
Defined.

(** Agreement on operations 1 and 2, disagreement on 3, a fourth
    operation in the input: the run ends with the mismatch at 3. *)
Lemma stops_at_first_mismatch_witness :
  run (compare steady flipped_third)
  = (preamble steady flipped_third
       ++ concat (map (block steady flipped_third) (seq 0 2))
       ++ op_lines steady flipped_third 2
       ++ [StateMismatch (txt "5", txt "0") (txt "5", txt "1"); Blank],
     inr Diverged)
  /\ examined (fst (run (compare steady flipped_third))) = [1; 2; 3].
Proof.
  apply (stops_at_first_mismatch steady flipped_third 2
           (txt "5", txt "0") (txt "5", txt "1")).
  - vm_compute. lia.
  - intros j Hj. destruct j as [|[|j]]; [reflexivity | reflexivity | lia].
  - vm_compute. reflexivity.
  - vm_compute. reflexivity.
  - discriminate.
Defined.

(** A hundred operations on each side: fifty are examined. *)
Lemma window_bound_witness :
  length hundred = 200
  /\ length (examined (fst (run (compare hundred hundred)))) = 50.
Proof.
  split; [reflexivity|].
  destruct (window_bound hundred hundred) as (_ & _ & _ & H).
  apply H; [reflexivity | reflexivity |].
  intros j _. apply mismatch_self.
Defined.

Lemma missing_snapshot_skipped_witness :
  snapshot_at silent_second 1 = None
  /\ run (compare silent_second steady)
     = for_range (operation silent_second steady) (seq 2 2)
         (preamble silent_second steady
            ++ concat (map (block silent_second steady) (seq 0 1))
            ++ op_lines silent_second steady 1 ++ [Blank]).
Proof.
  split; [vm_compute; reflexivity|].
  destruct (missing_snapshot_skipped silent_second steady 1) as [H _].
  - vm_compute. lia.
  - intros j Hj. destruct j as [|j]; [reflexivity | lia].
  - left. vm_compute. reflexivity.
  - exact H.
Defined.

Lemma full_match_exhausts_witness :
  snd (run (compare steady steady)) = inr Exhausted
  /\ examined (fst (run (compare steady steady))) = [1; 2; 3; 4]
  /\ length (verdicts (fst (run (compare steady steady)))) = 4.
Proof.
  destruct (full_match_exhausts steady steady) as (_ & _ & H).
  destruct H as (A & B & C & _).
  - intros i Hi. exists (txt "5", txt "0").
    destruct i as [|[|[|[|i]]]];
      [split; vm_compute; reflexivity .. | exfalso; vm_compute in Hi; lia].
  - split; [exact A|]. split; [exact B | exact C].
Defined.

Lemma tagged_line_record_witness :
  exists ds ph body tail,
    txt "[MQC #12 AFTER]  newState=5 newMPS=0 " ++ [Chars.newline]
    = tagged "[MQC #" ds ph (body ++ tail)
    /\ well_formed ds ph body tail
    /\ parse_line ([], [])
         (txt "[MQC #12 AFTER]  newState=5 newMPS=0 " ++ [Chars.newline])
       = ([], [] ++ [mkTraceLine (int ds) ph (strip body)]).
Proof.
  destruct (tagged_line_record
              (txt "[MQC #12 AFTER]  newState=5 newMPS=0 " ++ [Chars.newline])
              [] []) as (_ & H & _).
  destruct (H (Attempt
                 (txt "[MQC #12 AFTER]  newState=5 newMPS=0 ")
                 [Chars.newline]
                 [(1, txt "12"); (2, txt "AFTER");
                  (3, txt "  newState=5 newMPS=0 ")]))
    as (ds & ph & body & tail & L & W & P & _).
  - vm_compute. reflexivity.
  - exists ds, ph, body, tail. split; [exact L|]. split; [exact W | exact P].
Defined.

Lemma parse_preserves_order_witness :
  fst (parse_mq_operations sample_output)
  = [ mkTraceLine 1 (txt "BEFORE") (txt "state=4 mps=0");
      mkTraceLine 1 (txt "AFTER") (txt "newState=5 newMPS=0") ].
Proof.
  refine (proj1 (parse_preserves_order
                   [txt "=== RUN   TestSimple5x5Debug"]
                   [txt "[MQC #1 BEFORE] state=4 mps=0";
                    txt "    t1_test.go:42: pass 0"]
                   [txt "[MQC #1 AFTER] newState=5 newMPS=0"]
                   (txt "[MQE #1 BEFORE] state=4 mps=0")
                   (txt "[MQE #1 AFTER] newState=5 newMPS=0")
                   (Attempt (txt "[MQE #1 BEFORE] state=4 mps=0") []
                      [(1, txt "1"); (2, txt "BEFORE");
                       (3, txt " state=4 mps=0")])
                   (Attempt (txt "[MQE #1 AFTER] newState=5 newMPS=0") []
                      [(1, txt "1"); (2, txt "AFTER");
                       (3, txt " newState=5 newMPS=0")])) _ _);
    vm_compute; reflexivity.
Defined.

Lemma pairing_ignores_op_num_witness :
  compare steady flipped_third [] = compare renumbered flipped_third [].
Proof.
  apply (pairing_ignores_op_num steady renumbered flipped_third flipped_third []).
  - repeat constructor.
  - repeat constructor.
Defined.

(** The claim C9 as it stands fails here: the line has a blank after
    the bracket, it is matched, and the record's payload is empty. *)
Lemma blank_payload_record :
  parse_mq_operations [txt "[MQE #3 AFTER] "]
  = ([mkTraceLine 3 (txt "AFTER") []], []).
Proof. vm_compute. reflexivity. Qed.

Lemma bare_tag_gives_no_record_witness :
  parse_line ([], []) (txt "[MQE #3 AFTER]") = ([], [])
  /\ parse_line ([], []) (txt "[MQC #3 AFTER]" ++ [Chars.newline]) = ([], []).
Proof.
  destruct bare_tag_gives_no_record as [H _]. split.
  - apply (H "[MQE #"%string (txt "3") (txt "AFTER") [] [] []);
      [left | | right | left]; reflexivity.
  - apply (H "[MQC #"%string (txt "3") (txt "AFTER") [Chars.newline] [] []);
      [right | | right | right]; reflexivity.
Defined.

End Samples.

(** ** More on parsing *)

Section MoreText.

Lemma lstrip_head (t : str) (c : ascii) (u : str) :
  lstrip t = c :: u -> Chars.is_space c = false.
Proof.
  induction t as [|a t IH]; simpl; [discriminate|].
  destruct (Chars.is_space a) eqn:E; [exact IH|].
  intros H. injection H as <- _. exact E.
Qed.

Lemma lstrip_suffix (t : str) :
  exists ws, t = ws ++ lstrip t /\ forallb Chars.is_space ws = true.
Proof.
  induction t as [|a t (ws & E & F)]; simpl.
  - exists []. auto.
  - destruct (Chars.is_space a) eqn:S.
    + exists (a :: ws). simpl. rewrite S, F, <- E. auto.
    + exists []. auto.
Qed.

Lemma lstrip_fixed (t : str) :
  (forall c u, t = c :: u -> Chars.is_space c = false) -> lstrip t = t.
Proof.
  destruct t as [|a t]; [reflexivity|]. intros H. simpl.
  rewrite (H a t eq_refl). reflexivity.
Qed.

Lemma strip_edge_clean (t : str) : edge_clean (strip t).
Proof.
  unfold strip, rstrip. split; intros c u E.
  - destruct (lstrip_suffix (rev (lstrip t))) as (ws & Ews & _).
    apply (f_equal (@rev ascii)) in E. rewrite rev_involutive in E.
    simpl in E. rewrite E in Ews.
    apply (f_equal (@rev ascii)) in Ews. rewrite rev_involutive in Ews.
    rewrite !rev_app_distr, rev_involutive in Ews. simpl in Ews.
    eapply lstrip_head. exact Ews.
  - apply (f_equal (@rev ascii)) in E. rewrite rev_involutive in E.
    rewrite rev_app_distr in E. simpl in E.
    eapply lstrip_head. exact E.
Qed.

Lemma strip_fixed (t : str) : edge_clean t -> strip t = t.
Proof.
  intros [F L]. unfold strip, rstrip. rewrite (lstrip_fixed t F).
  rewrite lstrip_fixed; [apply rev_involutive|].
  intros c u E. apply (L c (rev u)).
  apply (f_equal (@rev ascii)) in E. rewrite rev_involutive in E.
  exact E.
Qed.

Lemma forallb_lstrip (p : ascii -> bool) (t : str) :
  forallb p t = true -> forallb p (lstrip t) = true.
Proof.
  intros H. destruct (lstrip_suffix t) as (ws & E & _).
  rewrite E, forallb_app in H. apply andb_prop in H as [_ H]. exact H.
Qed.

Lemma forallb_strip (p : ascii -> bool) (t : str) :
  forallb p t = true -> forallb p (strip t) = true.
Proof.
  intros H. unfold strip, rstrip. rewrite forallb_rev.
  apply forallb_lstrip. rewrite forallb_rev. apply forallb_lstrip. exact H.
Qed.

End MoreText.

Section MoreParsing.

Lemma match_none_scan (tag : string) (line : str) :
  re_match (tag_re tag) line = None <-> scan_tag tag line = None.
Proof.
  pose proof (tag_match_scan tag line) as H.
  destruct (re_match (tag_re tag) line), (scan_tag tag line);
    simpl in H; split; intros E; congruence.
Qed.

Lemma one_pattern_at_most (line : str) :
  re_match enc_re line = None \/ re_match dec_re line = None.
Proof.
  destruct (scan_tag "[MQE #" line) as [[[ds ph] body]|] eqn:E.
  - right. apply match_none_scan.
    destruct (scan_tag_inv _ _ _ _ _ E) as (tail & -> & _).
    apply scan_other_tag.
  - left. apply match_none_scan. exact E.
Qed.

Lemma record_from_scan (tag : string) (line : str) (r : TraceLine) :
  option_map record_of (re_match (tag_re tag) line) = Some r ->
  exists ds ph body tail,
    line = tagged tag ds ph (body ++ tail) /\ well_formed ds ph body tail
    /\ r = mkTraceLine (int ds) ph (strip body).
Proof.
  rewrite tag_match_record. intros H.
  destruct (scan_tag tag line) as [[[ds ph] body]|] eqn:E; [|discriminate].
  injection H as <-.
  destruct (scan_tag_inv _ _ _ _ _ E) as (tail & L & W).
  exists ds, ph, body, tail. auto.
Qed.

Lemma in_omap {A B} (f : A -> option B) (l : list A) (y : B) :
  In y (omap f l) -> exists x, In x l /\ f x = Some y.
Proof.
  induction l as [|a l IH]; simpl; [contradiction|].
  destruct (f a) as [b|] eqn:E.
  - intros [<- | H]; [eauto|]. destruct (IH H) as (x & I & F). eauto.
  - intros H. destruct (IH H) as (x & I & F). eauto.
Qed.

(** X1: parsing the lines of two inputs one after the other gives, in
    each stream, the records of the first input followed by those of
    the second. *)
Theorem parse_concat (lines1 lines2 : list str) :
  parse_mq_operations (lines1 ++ lines2)
  = (fst (parse_mq_operations lines1) ++ fst (parse_mq_operations lines2),
     snd (parse_mq_operations lines1) ++ snd (parse_mq_operations lines2)).
Proof.
  rewrite !parse_streams. cbn [fst snd]. rewrite !omap_app. reflexivity.
Qed.

(** X2: no line is matched by both patterns, so the two streams together
    never hold more records than there were lines. *)
Theorem line_feeds_one_stream (lines : list str) :
  (forall line, re_match enc_re line = None \/ re_match dec_re line = None)
  /\ length (fst (parse_mq_operations lines))
     + length (snd (parse_mq_operations lines)) <= length lines.
Proof.
  split; [exact one_pattern_at_most|].
  rewrite parse_streams. cbn [fst snd].
  induction lines as [|line lines IH]; [simpl; lia|].
  cbn [omap list_omap length]. unfold enc_record at 1, dec_record at 1.
  destruct (one_pattern_at_most line) as [-> | ->]; cbn [option_map].
  - destruct (option_map record_of (re_match dec_re line)); simpl in *; lia.
  - destruct (option_map record_of (re_match enc_re line)); simpl in *; lia.
Qed.

(** X3: every record of either stream has BEFORE or AFTER as its phase
    and a non-negative operation number, and its payload holds no line
    feed, has no whitespace at either end and is left as it is by
    another [strip]. *)
Theorem parsed_record_invariant (lines : list str) (r : TraceLine) :
  In r (fst (parse_mq_operations lines))
  \/ In r (snd (parse_mq_operations lines)) ->
  is_phase (phase r)
  /\ (0 <= op_num r)%Z
  /\ forallb Chars.is_dot (details r) = true
  /\ edge_clean (details r)
  /\ strip (details r) = details r.
Proof.
  rewrite parse_streams. cbn [fst snd]. intros H.
  assert (exists tag line,
             option_map record_of (re_match (tag_re tag) line) = Some r)
    as (tag & line & E).
  { destruct H as [H | H]; apply in_omap in H as (line & _ & E);
      eexists _, line; exact E. }
  destruct (record_from_scan _ _ _ E)
    as (ds & ph & body & tail & _ & (_ & D & P & _ & B & _) & ->).
  cbn [phase op_num details].
  split; [exact P|]. split; [apply (int_upper ds D)|].
  split; [apply forallb_strip; exact B|].
  split; [apply strip_edge_clean|].
  apply strip_fixed, strip_edge_clean.
Qed.

(** X4: lines that neither pattern matches have no effect: parsing the
    input and parsing only its trace lines give the same two streams. *)
Theorem untagged_lines_dropped (lines : list str) :
  parse_mq_operations lines
  = parse_mq_operations (filter (fun l => is_trace_line l = true) lines).
Proof.
  assert (forall (f : str -> option TraceLine),
            (forall l, is_trace_line l = false -> f l = None) ->
            omap f (filter (fun l => is_trace_line l = true) lines)
            = omap f lines) as K.
  { intros f Hf. induction lines as [|line rest IH]; [reflexivity|].
    rewrite filter_cons. destruct (decide (is_trace_line line = true)) as [T|T].
    - cbn [omap list_omap]. rewrite IH. reflexivity.
    - cbn [omap list_omap]. rewrite Hf, IH; [reflexivity|].
      destruct (is_trace_line line); [contradiction | reflexivity]. }
  rewrite !parse_streams. rewrite !K; [reflexivity | |].
  - intros l H. unfold is_trace_line in H. unfold dec_record.
    destruct (re_match enc_re l), (re_match dec_re l);
      try discriminate; reflexivity.
  - intros l H. unfold is_trace_line in H. unfold enc_record.
    destruct (re_match enc_re l), (re_match dec_re l);
      try discriminate; reflexivity.
Qed.

(** X5: the patterns are tried at the start of the line only: an empty
    line, and a line whose first character is not the opening bracket
    (an indented or prefixed tag, say), add nothing to either stream. *)
Theorem tag_must_start_line (e d : list TraceLine) (c : ascii) (line : str) :
  c <> "["%char ->
  parse_line (e, d) (c :: line) = (e, d) /\ parse_line (e, d) [] = (e, d).
Proof.
  intros N.
  assert (forall tag, tag = "[MQE #"%string \/ tag = "[MQC #"%string ->
            re_match (tag_re tag) (c :: line) = None
            /\ re_match (tag_re tag) [] = None) as H.
  { intros tag T. split; apply match_none_scan; unfold scan_tag.
    - destruct T as [-> | ->]; cbn [txt list_ascii_of_string];
        rewrite strip_prefix_other by congruence; reflexivity.
    - destruct T as [-> | ->]; reflexivity. }
  destruct (H "[MQE #"%string) as [E1 E2]; [auto|].
  destruct (H "[MQC #"%string) as [D1 D2]; [auto|].
  unfold parse_line, enc_re, dec_re. rewrite E1, E2, D1, D2. auto.
Qed.

End MoreParsing.

(** ** Lines as the file yields them *)

Section FileLines.

Lemma str_pair_ind (P : str -> Prop) :
  P [] -> (forall c, P [c]) ->
  (forall c d t, P t -> P (d :: t) -> P (c :: d :: t)) ->
  forall t, P t.
Proof.
  intros H0 H1 H2 t.
  assert (P t /\ forall c, P (c :: t)) as [H _]; [|exact H].
  induction t as [|d t [IH1 IH2]]; [auto|].
  split; [apply IH2|]. intros c. apply H2; auto.
Qed.

Lemma universal_newlines_two (c d : ascii) (t : str) :
  universal_newlines (c :: d :: t)
  = if bool_decide (c = carriage_return) then
      if bool_decide (d = Chars.newline)
      then Chars.newline :: universal_newlines t
      else Chars.newline :: universal_newlines (d :: t)
    else c :: universal_newlines (d :: t).
Proof. reflexivity. Qed.

Lemma universal_newlines_app (a b : str) :
  universal_newlines ((a ++ [Chars.newline]) ++ b)
  = universal_newlines (a ++ [Chars.newline]) ++ universal_newlines b.
Proof.
  induction a as [|c|c d t IH1 IH2] using str_pair_ind.
  - reflexivity.
  - cbn [app]. rewrite !universal_newlines_two.
    destruct (bool_decide (c = carriage_return)); reflexivity.
  - change (((c :: d :: t) ++ [Chars.newline]) ++ b)
      with (c :: d :: ((t ++ [Chars.newline]) ++ b)).
    change ((c :: d :: t) ++ [Chars.newline])
      with (c :: d :: (t ++ [Chars.newline])).
    rewrite !universal_newlines_two.
    change (d :: (t ++ [Chars.newline]) ++ b)
      with (((d :: t) ++ [Chars.newline]) ++ b).
    change (d :: t ++ [Chars.newline]) with ((d :: t) ++ [Chars.newline]).
    destruct (bool_decide (c = carriage_return));
      [destruct (bool_decide (d = Chars.newline))|];
      rewrite ?IH1, ?IH2; reflexivity.
Qed.

Lemma universal_newlines_ends (a : str) :
  exists x, universal_newlines (a ++ [Chars.newline]) = x ++ [Chars.newline].
Proof.
  induction a as [|c|c d t [x1 IH1] [x2 IH2]] using str_pair_ind.
  - exists []. reflexivity.
  - cbn [app]. rewrite universal_newlines_two.
    destruct (bool_decide (c = carriage_return));
      [exists [] | exists [c]]; reflexivity.
  - change ((c :: d :: t) ++ [Chars.newline])
      with (c :: d :: (t ++ [Chars.newline])).
    rewrite universal_newlines_two.
    change (d :: t ++ [Chars.newline]) with ((d :: t) ++ [Chars.newline]).
    destruct (bool_decide (c = carriage_return));
      [destruct (bool_decide (d = Chars.newline))|];
      rewrite ?IH1, ?IH2;
      [exists (Chars.newline :: x1) | exists (Chars.newline :: x2)
       | exists (c :: x2)]; reflexivity.
Qed.

Lemma split_lines_nil (t : str) : split_lines t = [] -> t = [].
Proof.
  destruct t as [|c t]; [reflexivity|]. simpl.
  destruct (bool_decide (c = Chars.newline)); [discriminate|].
  destruct (split_lines t); discriminate.
Qed.

Lemma split_lines_app (x y : str) :
  split_lines ((x ++ [Chars.newline]) ++ y)
  = split_lines (x ++ [Chars.newline]) ++ split_lines y.
Proof.
  induction x as [|c x IH].
  - reflexivity.
  - cbn [app split_lines].
    destruct (bool_decide (c = Chars.newline)).
    + rewrite IH. reflexivity.
    + rewrite IH.
      destruct (split_lines (x ++ [Chars.newline])) as [|l ls] eqn:E.
      * apply split_lines_nil in E. destruct x; discriminate E.
      * reflexivity.
Qed.

Lemma split_lines_newline_last (t : str) :
  Forall newline_last (split_lines t).
Proof.
  induction t as [|c t IH]; [constructor|]. simpl.
  destruct (bool_decide (c = Chars.newline)) eqn:N.
  - constructor; [|exact IH]. intros u v E.
    destruct u as [|a u]; [injection E as _ <-; reflexivity|].
    injection E as _ E. destruct u; discriminate E.
  - apply bool_decide_eq_false_1 in N.
    destruct (split_lines t) as [|l ls].
    + constructor; [|constructor]. intros u v E.
      destruct u as [|a u]; [injection E as E _; contradiction|].
      injection E as _ E. destruct u; discriminate E.
    + apply Forall_cons_1 in IH as [Hl Hls]. constructor; [|exact Hls].
      intros u v E. destruct u as [|a u].
      * injection E as E _. contradiction.
      * injection E as _ E. exact (Hl u v E).
Qed.

Lemma read_lines_app (a b : str) :
  read_lines ((a ++ [Chars.newline]) ++ b)
  = read_lines (a ++ [Chars.newline]) ++ read_lines b.
Proof.
  unfold read_lines. rewrite universal_newlines_app.
  destruct (universal_newlines_ends a) as [x ->].
  apply split_lines_app.
Qed.

(** X6: for a line as the file yields it, the payload of its record is
    everything after the closing bracket of the tag, stripped: the line
    is the tag, the digits, the phase and a rest, and the record holds
    the value of the digits, the phase and the stripped rest. *)
Theorem file_line_payload (content line : str) (m : attempt) :
  In line (read_lines content) ->
  re_match enc_re line = Some m \/ re_match dec_re line = Some m ->
  exists tag ds ph after,
    line = tagged tag ds ph after
    /\ record_of m = mkTraceLine (int ds) ph (strip after).
Proof.
  intros I H.
  assert (newline_last line) as NL.
  { pose proof (split_lines_newline_last (universal_newlines content)) as F.
    rewrite List.Forall_forall in F. apply F. exact I. }
  assert (exists tag, option_map record_of (re_match (tag_re tag) line)
                      = Some (record_of m)) as (tag & E).
  { destruct H as [H | H]; eexists; unfold enc_re, dec_re in H;
      rewrite H; reflexivity. }
  destruct (record_from_scan _ _ _ E)
    as (ds & ph & body & tail & L & (_ & _ & _ & _ & _ & S) & R).
  exists tag, ds, ph, (body ++ tail). split; [exact L|].
  rewrite R. f_equal.
  destruct tail as [|c tail]; [rewrite app_nil_r; reflexivity|].
  simpl in S. unfold Chars.is_dot in S. apply negb_false_iff in S.
  apply Nat.eqb_eq in S.
  assert (c = Chars.newline) as ->.
  { rewrite <- (ascii_nat_embedding c). unfold Chars.code in S.
    rewrite S. reflexivity. }
  assert (tail = []) as ->.
  { apply (NL (txt tag ++ ds ++ txt " " ++ ph ++ txt "]" ++ body) tail).
    rewrite L. unfold tagged. rewrite <- !app_assoc. reflexivity. }
  symmetry. apply strip_trailing. reflexivity.
Qed.

End FileLines.

(** ** More on the comparison *)

Section MoreComparison.

(** Two pairs of streams with the same window and the same payloads at
    the positions inside it are treated alike by the loop. *)
Lemma window_agree (enc dec enc' dec' : list TraceLine) (n : nat) :
  (forall k, k < 2 * n -> payload_at enc k = payload_at enc' k) ->
  (forall k, k < 2 * n -> payload_at dec k = payload_at dec' k) ->
  forall l, Forall (fun i => i < n) l ->
    map (block enc dec) (visited enc dec l)
    = map (block enc' dec') (visited enc' dec' l)
    /\ outcome enc dec l = outcome enc' dec' l.
Proof.
  intros Pe Pd.
  assert (forall i, i < n ->
            mismatch_at enc dec i = mismatch_at enc' dec' i
            /\ block enc dec i = block enc' dec' i) as B.
  { intros i Hi. unfold block, verdict, op_lines, mismatch_at, snapshot_at.
    rewrite !(Pe (i * 2)), !(Pe (i * 2 + 1)), !(Pd (i * 2)),
      !(Pd (i * 2 + 1)) by lia. auto. }
  unfold outcome. induction 1 as [|i l Hi _ [IHv IHo]]; [auto|].
  destruct (B i Hi) as [M Bi]. cbn [visited existsb]. rewrite <- M.
  destruct (mismatch_at enc dec i); cbn [map orb].
  - rewrite Bi. auto.
  - rewrite Bi, IHv. auto.
Qed.

Lemma seq_below (n : nat) : Forall (fun i => i < n) (seq 0 n).
Proof. apply List.Forall_forall. intros i H. apply in_seq in H. lia. Qed.

Lemma compare_agree (enc dec enc' dec' : list TraceLine) (log : list printed) :
  length enc / 2 = length enc' / 2 ->
  length dec / 2 = length dec' / 2 ->
  (forall k, k < 2 * window enc dec -> payload_at enc k = payload_at enc' k) ->
  (forall k, k < 2 * window enc dec -> payload_at dec k = payload_at dec' k) ->
  compare enc dec log = compare enc' dec' log.
Proof.
  intros Le Ld Pe Pd. rewrite !compare_from.
  assert (window enc' dec' = window enc dec) as ->
    by (unfold window; rewrite Le, Ld; reflexivity).
  destruct (window_agree enc dec enc' dec' _ Pe Pd _ (seq_below _)) as [-> ->].
  unfold preamble. rewrite Le, Ld. reflexivity.
Qed.

Lemma payload_at_details (ops ops' : list TraceLine) (k : nat) :
  map details ops = map details ops' -> payload_at ops k = payload_at ops' k.
Proof.
  intros E. unfold payload_at.
  assert (details <$> ops !! k = details <$> ops' !! k) as H.
  { rewrite <- !list_lookup_fmap. change (fmap details) with (map details).
    rewrite E. reflexivity. }
  destruct (ops !! k), (ops' !! k); simpl in *; congruence.
Qed.

(** X7: the comparison reads nothing of a record but its payload: two
    pairs of streams with the same payloads in the same order give the
    same run, whatever their phases and operation numbers are.  The
    BEFORE and AFTER roles are given by position alone. *)
Theorem compare_reads_payloads_only (enc dec enc' dec' : list TraceLine)
        (log : list printed) :
  map details enc = map details enc' ->
  map details dec = map details dec' ->
  compare enc dec log = compare enc' dec' log.
Proof.
  intros Ee Ed. apply compare_agree.
  - rewrite <- (length_map details enc), Ee, length_map. reflexivity.
  - rewrite <- (length_map details dec), Ed, length_map. reflexivity.
  - intros k _. apply payload_at_details. exact Ee.
  - intros k _. apply payload_at_details. exact Ed.
Qed.

Lemma payload_at_app (ops extra : list TraceLine) (k : nat) :
  k < length ops -> payload_at (ops ++ extra) k = payload_at ops k.
Proof.
  intros H. unfold payload_at. rewrite lookup_app_l by exact H. reflexivity.
Qed.

(** X8: a last line without its partner is not looked at: one more
    record after an even number of them changes nothing, on either
    side. *)
Theorem unpaired_last_line_ignored (enc dec : list TraceLine) (l : TraceLine)
        (log : list printed) :
  (Nat.even (length enc) = true ->
   compare (enc ++ [l]) dec log = compare enc dec log)
  /\ (Nat.even (length dec) = true ->
      compare enc (dec ++ [l]) log = compare enc dec log).
Proof.
  assert (forall ops : list TraceLine,
            Nat.even (length ops) = true ->
            length ops / 2 = length (ops ++ [l]) / 2) as D.
  { intros ops H. apply Nat.even_spec in H as [k H].
    rewrite length_app, H. simpl length.
    rewrite (Nat.mul_comm 2 k), Nat.div_add_l, Nat.div_mul by lia.
    simpl. lia. }
  destruct (window_in_range enc dec) as [We Wd].
  split; intros H; symmetry; apply compare_agree; auto.
  - intros k Hk. symmetry. apply payload_at_app. lia.
  - intros k Hk. symmetry. apply payload_at_app. lia.
Qed.

Lemma payload_at_take (ops : list TraceLine) (n k : nat) :
  k < n -> payload_at (take n ops) k = payload_at ops k.
Proof.
  intros H. unfold payload_at. rewrite lookup_take_lt by exact H. reflexivity.
Qed.

(** X9: nothing after the first hundred records of a stream is read:
    cut to their first hundred records, the streams give the same
    blocks, verdicts and ending; only the two counts printed first can
    differ. *)
Theorem only_first_hundred_records (enc dec : list TraceLine) :
  snd (run (compare enc dec))
  = snd (run (compare (take 100 enc) (take 100 dec)))
  /\ drop 3 (fst (run (compare enc dec)))
     = drop 3 (fst (run (compare (take 100 enc) (take 100 dec)))).
Proof.
  assert (window (take 100 enc) (take 100 dec) = window enc dec) as W.
  { unfold window. rewrite !length_take.
    pose proof (Nat.div_mod_eq (length enc) 2).
    pose proof (Nat.mod_upper_bound (length enc) 2).
    pose proof (Nat.div_mod_eq (length dec) 2).
    pose proof (Nat.mod_upper_bound (length dec) 2).
    pose proof (Nat.div_mod_eq (100 `min` length enc) 2).
    pose proof (Nat.mod_upper_bound (100 `min` length enc) 2).
    pose proof (Nat.div_mod_eq (100 `min` length dec) 2).
    pose proof (Nat.mod_upper_bound (100 `min` length dec) 2).
    lia. }
  assert (window enc dec <= 50) as B by (unfold window; lia).
  rewrite !compare_run, W. cbn [fst snd].
  destruct (window_agree enc dec (take 100 enc) (take 100 dec)
              (window enc dec)) with (l := seq 0 (window enc dec))
    as [-> ->].
  - intros k Hk. symmetry. apply payload_at_take. lia.
  - intros k Hk. symmetry. apply payload_at_take. lia.
  - apply seq_below.
  - auto.
Qed.

(** X10: with fewer than two records on either side there is nothing to
    compare: the run prints the two counts and the blank line and ends
    by exhaustion. *)
Theorem short_stream_prints_counts_only (enc dec : list TraceLine)
        (log : list printed) :
  length enc < 2 \/ length dec < 2 ->
  compare enc dec log = (log ++ preamble enc dec, inr Exhausted).
Proof.
  intros H. rewrite compare_from.
  assert (window enc dec = 0) as ->.
  { unfold window.
    destruct H as [H | H]; rewrite (Nat.div_small _ 2 H); lia. }
  cbn [seq visited map concat]. rewrite app_nil_r. reflexivity.
Qed.

End MoreComparison.

Section Reports.

Variables enc dec : list TraceLine.

Lemma visited_length (l : list nat) : length (visited enc dec l) <= length l.
Proof.
  induction l as [|i l IH]; simpl; [lia|].
  destruct (mismatch_at enc dec i); simpl; lia.
Qed.

Lemma block_length (i : nat) : length (block enc dec i) <= 7.
Proof.
  unfold block. pose proof (block_cases enc dec i) as H.
  rewrite !length_app.
  destruct (snapshot_at enc i), (snapshot_at dec i);
    [destruct H as [(_ & _ & ->) | (_ & _ & ->)] | destruct H as [_ ->] ..];
    simpl; lia.
Qed.

Lemma blocks_length (l : list nat) :
  length (concat (map (block enc dec) l)) <= 7 * length l.
Proof.
  induction l as [|i l IH]; cbn [map concat]; [simpl; lia|].
  rewrite length_app. pose proof (block_length i).
  change (length (i :: l)) with (S (length l)). lia.
Qed.

Lemma clean_block (i : nat) :
  mismatch_at enc dec i = false ->
  filter (fun l => is_mismatch l = true) (block enc dec i) = [].
Proof.
  intros M. unfold block. pose proof (block_cases enc dec i) as H.
  destruct (snapshot_at enc i), (snapshot_at dec i);
    [destruct H as [(_ & _ & ->) | (_ & M' & _)]; [|congruence]
    | destruct H as [_ ->] ..];
    reflexivity.
Qed.

Lemma clean_blocks (l : list nat) :
  Forall (fun j => mismatch_at enc dec j = false) l ->
  filter (fun l => is_mismatch l = true) (concat (map (block enc dec) l)) = [].
Proof.
  induction 1 as [|i l M _ IH]; cbn [map concat]; [reflexivity|].
  rewrite filter_app, (clean_block i M), IH. reflexivity.
Qed.

Lemma mismatch_block (i : nat) :
  mismatch_at enc dec i = true ->
  exists a b,
    snapshot_at enc i = Some a /\ snapshot_at dec i = Some b /\ a <> b
    /\ block enc dec i = op_lines enc dec i ++ [StateMismatch a b; Blank].
Proof.
  intros M. unfold block. pose proof (block_cases enc dec i) as H.
  destruct (snapshot_at enc i) as [a|], (snapshot_at dec i) as [b|];
    [destruct H as [(_ & M' & _) | (N & _ & ->)]; [congruence|]
    | destruct H as [M' _]; congruence ..].
  exists a, b. auto.
Qed.

(** The visited indices are all of them, or a clean stretch and then
    the first mismatch. *)
Lemma visited_shape (l : list nat) :
  (visited enc dec l = l
   /\ Forall (fun j => mismatch_at enc dec j = false) l
   /\ outcome enc dec l = Exhausted)
  \/ (exists l1 i,
        visited enc dec l = l1 ++ [i]
        /\ Forall (fun j => mismatch_at enc dec j = false) l1
        /\ mismatch_at enc dec i = true
        /\ outcome enc dec l = Diverged).
Proof.
  unfold outcome. induction l as [|i l IH]; cbn [visited existsb].
  - left. auto.
  - destruct (mismatch_at enc dec i) eqn:M; cbn [orb].
    + right. exists [], i. auto.
    + destruct IH as [(V & F & O) | (l1 & k & V & F & Mk & O)].
      * left. rewrite V. auto.
      * right. exists (i :: l1), k. rewrite V. auto.
Qed.

(** X11: a run prints at most 353 lines: the three of the preamble and
    at most seven for each of at most fifty operations. *)
Theorem report_is_bounded : length (fst (run (compare enc dec))) <= 353.
Proof.
  rewrite compare_run. cbn [fst]. rewrite length_app.
  pose proof (blocks_length (visited enc dec (seq 0 (window enc dec)))) as B.
  pose proof (visited_length (seq 0 (window enc dec))) as V.
  rewrite length_seq in V.
  assert (window enc dec <= 50) by (unfold window; lia).
  change (length (preamble enc dec)) with 3. lia.
Qed.

(** X12: a run either ends by exhaustion without any mismatch notice,
    or ends by [break] with exactly one, which is the last line but
    one: nothing but the blank line is printed after it, and no verdict
    of any kind follows it. *)
Theorem mismatch_notice_ends_report :
  (snd (run (compare enc dec)) = inr Exhausted
   /\ filter (fun l => is_mismatch l = true) (fst (run (compare enc dec))) = [])
  \/ (exists body a b,
        snd (run (compare enc dec)) = inr Diverged
        /\ fst (run (compare enc dec)) = body ++ [StateMismatch a b; Blank]
        /\ a <> b
        /\ filter (fun l => is_mismatch l = true) body = []).
Proof.
  rewrite compare_run. cbn [fst snd].
  destruct (visited_shape (seq 0 (window enc dec)))
    as [(-> & F & ->) | (l1 & i & -> & F & M & ->)].
  - left. split; [reflexivity|].
    rewrite filter_app, (clean_blocks _ F). reflexivity.
  - right. destruct (mismatch_block i M) as (a & b & _ & _ & N & B).
    exists (preamble enc dec ++ concat (map (block enc dec) l1)
              ++ op_lines enc dec i), a, b.
    split; [reflexivity|]. split; [|split; [exact N|]].
    + rewrite map_app, concat_app. cbn [map concat].
      rewrite B, app_nil_r, <- !app_assoc. reflexivity.
    + rewrite !filter_app, (clean_blocks _ F). reflexivity.
Qed.

End Reports.

Section Duality.

(** X13: a stream compared with itself never diverges: the run ends by
    exhaustion after announcing every operation of the window, and
    prints no mismatch notice. *)
Theorem self_comparison_exhausts (ops : list TraceLine) :
  snd (run (compare ops ops)) = inr Exhausted
  /\ examined (fst (run (compare ops ops)))
     = seq 1 (Nat.min 50 (length ops / 2))
  /\ filter (fun l => is_mismatch l = true) (fst (run (compare ops ops))) = [].
Proof.
  assert (Forall (fun j => mismatch_at ops ops j = false)
            (seq 0 (window ops ops))) as F.
  { apply List.Forall_forall. intros j _. unfold mismatch_at.
    destruct (snapshot_at ops j) as [a|]; [|reflexivity].
    apply bool_decide_eq_false_2. intros N. apply N. reflexivity. }
  destruct (visited_clean ops ops _ F) as [V O].
  rewrite compare_run, V, O. cbn [fst snd].
  split; [reflexivity|]. split.
  - rewrite examined_app, examined_blocks, shifted_seq.
    unfold window. rewrite Nat.min_id. reflexivity.
  - rewrite filter_app, (clean_blocks ops ops _ F). reflexivity.
Qed.

(** X14: which stream is called the encoder's and which the decoder's
    does not matter for how far the run goes: with the two streams
    swapped it ends the same way after announcing the same operations. *)
Theorem swapping_sides_keeps_outcome (enc dec : list TraceLine) :
  snd (run (compare enc dec)) = snd (run (compare dec enc))
  /\ examined (fst (run (compare enc dec)))
     = examined (fst (run (compare dec enc))).
Proof.
  assert (forall i, mismatch_at enc dec i = mismatch_at dec enc i) as M.
  { intros i. unfold mismatch_at.
    destruct (snapshot_at enc i) as [a|], (snapshot_at dec i) as [b|];
      try reflexivity.
    destruct (decide (a = b)) as [-> | N]; [reflexivity|].
    rewrite !bool_decide_eq_true_2; auto. }
  assert (forall l, visited enc dec l = visited dec enc l) as V.
  { induction l as [|i l IH]; simpl; [reflexivity|].
    rewrite M, IH. reflexivity. }
  assert (forall l, outcome enc dec l = outcome dec enc l) as O.
  { intros l. unfold outcome.
    replace (existsb (mismatch_at dec enc) l)
      with (existsb (mismatch_at enc dec) l); [reflexivity|].
    induction l as [|i l IH]; simpl; [reflexivity|].
    rewrite M, IH. reflexivity. }
  assert (window dec enc = window enc dec) as W
    by (unfold window; lia).
  rewrite !compare_run, W, V, O. cbn [fst snd].
  rewrite !examined_app, !examined_blocks. auto.
Qed.

End Duality.

(** ** The whole script *)

Section Script.

(** X15: when the standard output is empty or ends with a line feed,
    each stream that [main] compares holds the records found in the
    standard output followed by those found in the standard error. *)
Theorem main_reads_stdout_then_stderr (stdout stderr : str)
        (log : list printed) :
  stdout = [] \/ (exists o, stdout = o ++ [Chars.newline]) ->
  main stdout stderr log
  = compare
      (fst (parse_file stdout) ++ fst (parse_file stderr))
      (snd (parse_file stdout) ++ snd (parse_file stderr))
      log.
Proof.
  intros H. unfold main.
  assert (parse_file (stdout ++ stderr)
          = (fst (parse_file stdout) ++ fst (parse_file stderr),
             snd (parse_file stdout) ++ snd (parse_file stderr))) as ->.
  { unfold parse_file. destruct H as [-> | [o ->]].
    - cbn [app]. change (read_lines []) with (@nil str).
      destruct (parse_mq_operations (read_lines stderr)). reflexivity.
    - rewrite read_lines_app. apply parse_concat. }
  reflexivity.
Qed.

(** X16: when no line of the test output is a trace line, [main] prints
    two zero counts and a blank line, and ends by exhaustion. *)
Theorem main_without_trace_lines (stdout stderr : str) :
  (forall line, In line (read_lines (stdout ++ stderr)) ->
                is_trace_line line = false) ->
  run (main stdout stderr)
  = ([EncoderOperations 0; DecoderOperations 0; Blank], inr Exhausted).
Proof.
  intros H. unfold run, main, parse_file.
  rewrite untagged_lines_dropped.
  assert (filter (fun l => is_trace_line l = true)
            (read_lines (stdout ++ stderr)) = []) as ->.
  { induction (read_lines (stdout ++ stderr)) as [|l ls IH]; [reflexivity|].
    rewrite filter_cons. destruct (decide (is_trace_line l = true)) as [T|T].
    - rewrite (H l) in T by (left; reflexivity). discriminate T.
    - apply IH. intros line I. apply H. right. exact I. }
  reflexivity.
Qed.

End Script.

(** ** The state fields of a payload *)

Section StateFields.

Lemma scan_state_shape (a b post : str) :
  a <> [] -> forallb Chars.is_digit a = true ->
  b <> [] -> forallb Chars.is_digit b = true ->
  stops Chars.is_digit post ->
  scan_state (txt "newState=" ++ a ++ txt " newMPS=" ++ b ++ post)
  = Some (a, b).
Proof.
  intros Na Da Nb Db S. unfold scan_state.
  rewrite strip_prefix_app. cbn [mbind option_bind].
  rewrite run_of_max by (auto; reflexivity). cbn [mbind option_bind].
  rewrite strip_prefix_app. cbn [mbind option_bind].
  rewrite run_of_max by auto. reflexivity.
Qed.

Lemma scan_state_needs_literal (t : str) :
  strip_prefix (txt "newState=") t = None -> scan_state t = None.
Proof. intros H. unfold scan_state. rewrite H. reflexivity. Qed.

(** Where the literal first stands, no earlier place starts with it. *)
Lemma no_earlier_literal (lit s after : str) :
  s <> [] ->
  (forall u v, s ++ lit = u ++ lit ++ v -> u = s) ->
  strip_prefix lit (s ++ lit ++ after) = None.
Proof.
  intros N H.
  destruct (strip_prefix lit (s ++ lit ++ after)) as [w|] eqn:E;
    [|reflexivity].
  exfalso. apply strip_prefix_inv in E.
  assert (length w = length s + length after) as Lw.
  { apply (f_equal (@length ascii)) in E. rewrite !length_app in E. lia. }
  rewrite <- (take_drop (length s) w) in E.
  rewrite (app_assoc s), (app_assoc lit) in E.
  apply app_inj_1 in E as [E _].
  - specialize (H [] _ E). subst s. contradiction.
  - rewrite !length_app, length_take. lia.
Qed.

(** X17: a snapshot is always made of two non-empty strings of decimal
    digits that stand in the payload as [newState=a newMPS=b], the
    second running up to the first character that is no digit. *)
Theorem snapshot_fields_in_payload (payload a b : str) :
  snapshot payload = Some (a, b) ->
  a <> [] /\ forallb Chars.is_digit a = true
  /\ b <> [] /\ forallb Chars.is_digit b = true
  /\ exists pre post,
       payload = pre ++ txt "newState=" ++ a ++ txt " newMPS=" ++ b ++ post
       /\ stops Chars.is_digit post.
Proof.
  rewrite snapshot_find_state.
  assert (forall t, scan_state t = Some (a, b) ->
            a <> [] /\ forallb Chars.is_digit a = true
            /\ b <> [] /\ forallb Chars.is_digit b = true
            /\ exists post,
                 t = txt "newState=" ++ a ++ txt " newMPS=" ++ b ++ post
                 /\ stops Chars.is_digit post) as K.
  { intros t H. unfold scan_state in H.
    destruct (strip_prefix (txt "newState=") t) as [t1|] eqn:E1;
      cbn [mbind option_bind] in H; [|discriminate].
    destruct (run_of Chars.is_digit t1) as [[a' t2]|] eqn:E2;
      cbn [mbind option_bind] in H; [|discriminate].
    destruct (strip_prefix (txt " newMPS=") t2) as [t3|] eqn:E3;
      cbn [mbind option_bind] in H; [|discriminate].
    destruct (run_of Chars.is_digit t3) as [[b' t4]|] eqn:E4;
      cbn [mbind option_bind] in H; [|discriminate].
    injection H as -> ->.
    apply strip_prefix_inv in E1, E3.
    apply run_of_inv in E2 as (-> & Na & Da & _).
    apply run_of_inv in E4 as (-> & Nb & Db & S).
    subst. repeat split; auto. exists t4. auto. }
  induction payload as [|c t IH]; cbn [find_state]; intros H.
  - destruct (scan_state []) as [st|] eqn:E; [|discriminate].
    injection H as ->. destruct (K _ E) as (A & B & C & D & post & P & S).
    repeat split; auto. exists [], post. auto.
  - destruct (scan_state (c :: t)) as [st|] eqn:E.
    + injection H as ->. destruct (K _ E) as (A & B & C & D & post & P & S).
      repeat split; auto. exists [], post. auto.
    + destruct (IH H) as (A & B & C & D & pre & post & -> & S).
      repeat split; auto. exists (c :: pre), post. auto.
Qed.

(** X18: the state fields are found wherever they stand in the payload:
    when [newState=] occurs first right after [pre], and is followed by
    digits, [ newMPS=] and digits, the snapshot is made of those two
    digit strings, whatever comes after them. *)
Theorem snapshot_of_first_occurrence (pre a b post : str) :
  (forall u v,
      pre ++ txt "newState=" = u ++ txt "newState=" ++ v -> u = pre) ->
  a <> [] -> forallb Chars.is_digit a = true ->
  b <> [] -> forallb Chars.is_digit b = true ->
  stops Chars.is_digit post ->
  snapshot (pre ++ txt "newState=" ++ a ++ txt " newMPS=" ++ b ++ post)
  = Some (a, b).
Proof.
  intros F Na Da Nb Db S. rewrite snapshot_find_state.
  induction pre as [|c pre IH].
  - cbn [app]. pose proof (scan_state_shape a b post Na Da Nb Db S) as E.
    destruct (txt "newState=" ++ a ++ txt " newMPS=" ++ b ++ post)
      as [|x t] eqn:T; cbn [find_state]; rewrite E; reflexivity.
  - change ((c :: pre) ++ txt "newState=" ++ a ++ txt " newMPS=" ++ b ++ post)
      with (c :: (pre ++ txt "newState=" ++ a ++ txt " newMPS=" ++ b ++ post)).
    cbn [find_state].
    rewrite scan_state_needs_literal.
    + apply IH. intros u v E.
      assert (c :: u = c :: pre) as Q.
      { apply (F (c :: u) v). cbn [app]. f_equal. exact E. }
      injection Q as Q. exact Q.
    + apply (no_earlier_literal (txt "newState=") (c :: pre)
               (a ++ txt " newMPS=" ++ b ++ post)); [discriminate | exact F].
Qed.

End StateFields.

(** ** The further statements at work on sample input *)

Section MoreSamples.

(** After a prefix without the letter [n], the literal [newState=]
    stands first where it is put. *)
Lemma literal_first_after (pre : str) :
  forallb (fun c => negb (bool_decide (c = "n"%char))) pre = true ->
  forall u v,
    pre ++ txt "newState=" = u ++ txt "newState=" ++ v -> u = pre.
Proof.
  induction pre as [|c pre IH]; intros H u v E.
  - destruct u as [|x u]; [reflexivity|]. exfalso.
    apply (f_equal (@length ascii)) in E.
    simpl in E. rewrite !length_app in E. simpl in E. lia.
  - simpl in H. apply andb_prop in H as [Hc H].
    destruct u as [|x u].
    + exfalso. cbn [app] in E. injection E as E _. subst c. discriminate Hc.
    + cbn [app] in E. injection E as <- E. f_equal. exact (IH H u v E).
Qed.

Lemma parsed_record_invariant_witness :
  let r := mkTraceLine 1 (txt "BEFORE") (txt "state=4 mps=0") in
  is_phase (phase r)
  /\ (0 <= op_num r)%Z
  /\ forallb Chars.is_dot (details r) = true
  /\ edge_clean (details r)
  /\ strip (details r) = details r.
Proof.
  apply (parsed_record_invariant sample_output).
  left. vm_compute. left. reflexivity.
Defined.

Lemma tag_must_start_line_witness :
  parse_line ([], []) (txt " [MQE #1 BEFORE] state=4 mps=0") = ([], [])
  /\ parse_line ([], []) [] = ([], []).
Proof.
  apply (tag_must_start_line [] [] " "%char (txt "[MQE #1 BEFORE] state=4 mps=0")).
  discriminate.
Defined.

Lemma file_line_payload_witness :
  exists tag ds ph after,
    txt "[MQE #1 AFTER] newState=5 newMPS=0 " ++ [Chars.newline]
    = tagged tag ds ph after
    /\ record_of
         (Attempt (txt "[MQE #1 AFTER] newState=5 newMPS=0 ")
            [Chars.newline]
            [(1, txt "1"); (2, txt "AFTER"); (3, txt " newState=5 newMPS=0 ")])
       = mkTraceLine (int ds) ph (strip after).
Proof.
  apply (file_line_payload
           (txt "[MQE #1 AFTER] newState=5 newMPS=0 " ++ [Chars.newline]
              ++ txt "ok")).
  - vm_compute. left. reflexivity.
  - left. vm_compute. reflexivity.
Defined.

Lemma compare_reads_payloads_only_witness :
  compare steady flipped_third []
  = compare (map (fun l => mkTraceLine 0 (txt "AFTER") (details l)) steady)
      flipped_third [].
Proof.
  apply compare_reads_payloads_only; reflexivity.
Defined.

Lemma unpaired_last_line_ignored_witness :
  compare (steady ++ [mkTraceLine 5 (txt "BEFORE") (txt "state=5 mps=0")])
    flipped_third []
  = compare steady flipped_third [].
Proof.
  apply (proj1 (unpaired_last_line_ignored steady flipped_third
                  (mkTraceLine 5 (txt "BEFORE") (txt "state=5 mps=0")) [])).
  reflexivity.
Defined.

Lemma short_stream_prints_counts_only_witness :
  compare (op_pair 1 "state=4 mps=0" "newState=5 newMPS=0")
    [mkTraceLine 1 (txt "BEFORE") (txt "state=4 mps=0")] []
  = ([EncoderOperations 1; DecoderOperations 0; Blank], inr Exhausted).
Proof.
  apply (short_stream_prints_counts_only
           (op_pair 1 "state=4 mps=0" "newState=5 newMPS=0")
           [mkTraceLine 1 (txt "BEFORE") (txt "state=4 mps=0")] []).
  right. simpl. lia.
Defined.

Lemma main_reads_stdout_then_stderr_witness :
  main (txt "[MQE #1 BEFORE] a" ++ [Chars.newline]) (txt "[MQE #1 AFTER] b") []
  = compare
      (fst (parse_file (txt "[MQE #1 BEFORE] a" ++ [Chars.newline]))
         ++ fst (parse_file (txt "[MQE #1 AFTER] b")))
      (snd (parse_file (txt "[MQE #1 BEFORE] a" ++ [Chars.newline]))
         ++ snd (parse_file (txt "[MQE #1 AFTER] b")))
      [].
Proof.
  apply main_reads_stdout_then_stderr.
  right. exists (txt "[MQE #1 BEFORE] a"). reflexivity.
Defined.

Lemma main_without_trace_lines_witness :
  run (main (txt "# jpeg2000/t1" ++ [Chars.newline]) (txt "FAIL [build failed]"))
  = ([EncoderOperations 0; DecoderOperations 0; Blank], inr Exhausted).
Proof.
  apply main_without_trace_lines.
  intros line I. vm_compute in I.
  destruct I as [<- | [<- | []]]; vm_compute; reflexivity.
Defined.

Lemma snapshot_fields_in_payload_witness :
  exists pre post,
    txt "ctx=3 newState=12 newMPS=1 done"
    = pre ++ txt "newState=" ++ txt "12" ++ txt " newMPS=" ++ txt "1" ++ post
    /\ stops Chars.is_digit post.
Proof.
  destruct (snapshot_fields_in_payload
              (txt "ctx=3 newState=12 newMPS=1 done") (txt "12") (txt "1"))
    as (_ & _ & _ & _ & H).
  - vm_compute. reflexivity.
  - exact H.
Defined.

Lemma snapshot_of_first_occurrence_witness :
  snapshot (txt "ctx=3 " ++ txt "newState=" ++ txt "12" ++ txt " newMPS="
              ++ txt "1" ++ txt " newState=9 newMPS=0")
  = Some (txt "12", txt "1").
Proof.
  apply (snapshot_of_first_occurrence (txt "ctx=3 ") (txt "12") (txt "1")
           (txt " newState=9 newMPS=0")).
  - apply literal_first_after. reflexivity.
  - discriminate.
  - reflexivity.
  - discriminate.
  - reflexivity.
  - reflexivity.
Defined.

End MoreSamples.
